(** * fs-webp-converter: the conversion pipeline of [app/routes/home.tsx]

    A shallow embedding of the directory scan, the permission gate, the
    canvas conversion and the batch loop of the [Home] component, with the
    host platform (File System Access API, canvas, image decoding) as
    oracles and every call to the host recorded in a trace. *)

From Stdlib Require Import List String Ascii ZArith NArith QArith Qround.
From Stdlib Require Import Lia Bool DecimalString Sorted OrderedTypeEx.
Import ListNotations.

Open Scope string_scope.
Open Scope Z_scope.

(** ** JavaScript string helpers

    File names are kept as byte strings (UTF-8).  The operations below only
    look for ASCII bytes, and no ASCII byte occurs inside a multi-byte
    UTF-8 sequence, so cutting at a ["."] gives the text that cutting the
    UTF-16 string gives. *)

(** [String.prototype.toLowerCase], on the ASCII letters.  No other
    character lowers to one of the characters of [".png"] or [".webp"],
    which is all [hasExtension] compares the result with. *)
Definition lowerAscii (c : ascii) : ascii :=
  let n := nat_of_ascii c in
  if ((65 <=? n) && (n <=? 90))%nat then ascii_of_nat (n + 32) else c.

Fixpoint toLowerCase (s : string) : string :=
  match s with
  | EmptyString => EmptyString
  | String c rest => String (lowerAscii c) (toLowerCase rest)
  end.

(** [s.endsWith(suffix)]. *)
Definition endsWith (s suffix : string) : bool :=
  let n := String.length s in
  let m := String.length suffix in
  ((m <=? n)%nat && String.eqb (substring (n - m) m s) suffix)%bool.

(** [s.lastIndexOf(c)] for a one-character search string: the index of the
    last occurrence, [-1] when there is none. *)
Fixpoint lastIndexOf (s : string) (c : ascii) : Z :=
  match s with
  | EmptyString => -1
  | String a rest =>
      let r := lastIndexOf rest c in
      if r =? -1 then (if Ascii.eqb a c then 0 else -1) else r + 1
  end.

(** [s.slice(b, e)], negative indices counting from the end. *)
Definition slice (s : string) (b e : Z) : string :=
  let len := Z.of_nat (String.length s) in
  let from := if b <? 0 then Z.max (len + b) 0 else Z.min b len in
  let to := if e <? 0 then Z.max (len + e) 0 else Z.min e len in
  substring (Z.to_nat from) (Z.to_nat (Z.max (to - from) 0)) s.

Definition hasExtension (name extension : string) : bool :=
  endsWith (toLowerCase name) extension.

Definition replaceExtension (fileName nextExtension : string) : string :=
  let index := lastIndexOf fileName "." in
  if index =? -1 then fileName ++ nextExtension
  else slice fileName 0 index ++ nextExtension.

(** Whether a name has a ["."] at all (used to state the naming rule). *)
Fixpoint hasDot (s : string) : bool :=
  match s with
  | EmptyString => false
  | String a rest => (Ascii.eqb a "." || hasDot rest)%bool
  end.

(** ** formatBytes

    [size] is a file or blob size, a non-negative integer below 2^53; the
    divisions by 1024 are then exact on doubles, so the value is the
    rational [size / 1024^k] and [toFixed(1)] rounds it to the nearest
    tenth, upwards on a tie. *)
Definition string_of_N (n : N) : string := NilZero.string_of_uint (N.to_uint n).

Definition toFixed1 (value : Q) : string :=
  let n := Z.to_N (Qfloor (10 * value + (1 # 2))%Q) in
  string_of_N (n / 10) ++ "." ++ string_of_N (n mod 10).

Definition units : list string := ["KB"; "MB"; "GB"].

Fixpoint formatBytes_loop (fuel : nat) (value : Q) (unitIndex : nat) : Q * nat :=
  match fuel with
  | O => (value, unitIndex)
  | S fuel' =>
      if (Qle_bool 1024%Q value && (unitIndex <? List.length units - 1)%nat)%bool
      then formatBytes_loop fuel' (value / 1024)%Q (unitIndex + 1)%nat
      else (value, unitIndex)
  end.

Definition formatBytes (size : N) : string :=
  if (size <? 1024)%N then string_of_N size ++ " B"
  else
    let '(value, unitIndex) :=
      formatBytes_loop (List.length units) (inject_Z (Z.of_N size) / 1024)%Q 0%nat in
    toFixed1 value ++ " " ++ nth unitIndex units "".

(** ** The bounded log: [appendLog]

    [setLogs((prev) => [entry, ...prev].slice(0, 20))]. *)
Definition appendLog_update (entry : string) (prev : list string) : list string :=
  firstn 20 (entry :: prev).

(** ** The host platform and the component state *)

Inductive PermissionMode := read | readwrite.
Inductive PermissionState := granted | denied | prompt.

(** A thrown value: an [Error] with its message ([error instanceof Error]),
    or anything else. *)
Inductive Thrown :=
| ErrorObject (message : string)
| OtherValue.

(** How a call ends: it returns (a promise resolves) or it throws (a
    promise rejects). *)
Inductive Outcome (A : Type) :=
| Returned (a : A)
| Threw (e : Thrown).
Arguments Returned {A} a.
Arguments Threw {A} e.

Record File := mkFile {
  file_name : string;
  file_type : string;
  file_size : N;
  file_lastModified : Z
}.

Record Blob := mkBlob {
  blob_size : N;
  blob_type : string
}.

Record ImageBitmap := mkImageBitmap {
  bitmap_id : nat;
  bitmap_width : N;
  bitmap_height : N
}.

Record HTMLImageElement := mkImage {
  img_src : string;
  img_width : N;
  img_height : N
}.

Record Canvas := mkCanvas {
  canvas_width : N;
  canvas_height : N
}.

(** What [drawImage] is given. *)
Inductive ImageSource :=
| FromBitmap (bitmap : ImageBitmap)
| FromImage (img : HTMLImageElement).

(** Every call the component makes to the host.  The permission calls record
    the answer they got. *)
Inductive Event :=
| EvQueryPermission (mode : PermissionMode) (answer : Outcome PermissionState)
| EvRequestPermission (mode : PermissionMode) (answer : Outcome PermissionState)
| EvEntries
| EvGetFile (name : string)
| EvCreateImageBitmap (file : File)
| EvBitmapClose (bitmap : ImageBitmap)
| EvCreateObjectURL (file : File)
| EvImageLoad (url : string)
| EvRevokeObjectURL (url : string)
| EvGetContext (canvas : Canvas)
| EvDrawImage (source : ImageSource)
| EvToBlob (canvas : Canvas) (mimeType : string) (quality : option Q)
| EvGetFileHandle (name : string)
| EvCreateWritable (name : string)
| EvWrite (name : string) (blob : Blob)
| EvClose (name : string).

(** The host answers a call from what has happened so far. *)
Definition History := list Event.

Record FileSystemWritableFileStream := mkWritable {
  write : History -> Blob -> Outcome unit;
  close : History -> Outcome unit
}.

Record FileSystemFileHandle := mkFileHandle {
  fh_name : string;
  getFile : History -> Outcome File;
  createWritable : History -> Outcome FileSystemWritableFileStream
}.

(** A child of a directory: [entry.kind] is ["file"] or ["directory"]. *)
Inductive FileSystemHandle :=
| KindFile (handle : FileSystemFileHandle)
| KindDirectory (name : string).

(** [PermissionCapableHandle & DirectoryHandleWithEntries]: the two
    permission methods are optional; [entries] yields the children and may
    end in a rejection. *)
Record FileSystemDirectoryHandle := mkDirectoryHandle {
  dir_name : string;
  queryPermission : option (History -> PermissionMode -> Outcome PermissionState);
  requestPermission : option (History -> PermissionMode -> Outcome PermissionState);
  entries : History -> list (string * FileSystemHandle) * option Thrown;
  getFileHandle : History -> string -> Outcome FileSystemFileHandle
}.

(** The globals of the page: [createImageBitmap] may be missing; an image
    element either loads ([onload]) or fails ([onerror], [None]);
    [getContext("2d")] may give [null]; [toBlob] may call back with
    [null]. *)
Record Env := mkEnv {
  createImageBitmap : option (History -> File -> Outcome ImageBitmap);
  createObjectURL : History -> File -> string;
  loadImage : History -> string -> option HTMLImageElement;
  getContext2d : History -> Canvas -> bool;
  drawImage : History -> ImageSource -> Outcome unit;
  toBlob : History -> Canvas -> string -> option Q -> Outcome (option Blob)
}.

Record ImageEntry := mkImageEntry {
  name : string;
  handle : FileSystemFileHandle;
  size : N;
  type : string;
  lastModified : Z
}.

Inductive ConversionDirection := png_to_webp | webp_to_png.

Record DirectionConfig := mkConfig {
  sourceExt : string;
  targetExt : string;
  mime : string;
  label : string
}.

Definition DIRECTION_CONFIG (direction : ConversionDirection) : DirectionConfig :=
  match direction with
  | png_to_webp => mkConfig ".png" ".webp" "image/webp" "PNG → WebP"
  | webp_to_png => mkConfig ".webp" ".png" "image/png" "WebP → PNG"
  end.

Definition SUPPORTED_MIME_TYPES : list string := ["image/png"; "image/webp"].

Definition SUPPORTED_MIME_TYPES_has (t : string) : bool :=
  existsb (String.eqb t) SUPPORTED_MIME_TYPES.

(** The [useState] cells of [Home], and the trace of host calls. *)
Record World := mkWorld {
  directoryHandle : option FileSystemDirectoryHandle;
  images : list ImageEntry;
  status : option string;
  logs : list string;
  isScanning : bool;
  isConverting : bool;
  trace : History
}.

(** ** A state and exception monad for the [async] functions *)

Definition M (A : Type) : Type := World -> Outcome A * World.

Definition ret {A} (a : A) : M A := fun w => (Returned a, w).

Definition throw {A} (e : Thrown) : M A := fun w => (Threw e, w).

Definition bind {A B} (m : M A) (k : A -> M B) : M B :=
  fun w =>
    match m w with
    | (Returned a, w') => k a w'
    | (Threw e, w') => (Threw e, w')
    end.

Notation "x <- m ;; k" := (bind m (fun x => k))
  (at level 61, m at next level, right associativity).
Notation "m ;;; k" := (bind m (fun _ => k))
  (at level 61, right associativity).

(** [try { body } catch (error) { handler }]. *)
Definition tryCatch {A} (body : M A) (handler : Thrown -> M A) : M A :=
  fun w =>
    match body w with
    | (Returned a, w') => (Returned a, w')
    | (Threw e, w') => handler e w'
    end.

(** [try { body } finally { final }], [final] not throwing. *)
Definition tryFinally {A} (body : M A) (final : World -> World) : M A :=
  fun w => let '(r, w') := body w in (r, final w').

Definition record (e : Event) (w : World) : World :=
  mkWorld (directoryHandle w) (images w) (status w) (logs w)
          (isScanning w) (isConverting w) (trace w ++ [e])%list.

(** A call to the host: the answer comes from the history, the call is
    appended to the trace. *)
Definition perform {A} (e : Event) (answer : History -> Outcome A) : M A :=
  fun w => (answer (trace w), record e w).

(** A permission call, recorded with its answer. *)
Definition performAnswered (mk : Outcome PermissionState -> Event)
    (answer : History -> Outcome PermissionState) : M PermissionState :=
  fun w => let r := answer (trace w) in (r, record (mk r) w).

Definition setStatus (s : string) : M unit :=
  fun w => (Returned tt,
            mkWorld (directoryHandle w) (images w) (Some s) (logs w)
                    (isScanning w) (isConverting w) (trace w)).

Definition setImages (items : list ImageEntry) : M unit :=
  fun w => (Returned tt,
            mkWorld (directoryHandle w) items (status w) (logs w)
                    (isScanning w) (isConverting w) (trace w)).

Definition set_isScanning (b : bool) (w : World) : World :=
  mkWorld (directoryHandle w) (images w) (status w) (logs w)
          b (isConverting w) (trace w).

Definition setIsScanning (b : bool) : M unit :=
  fun w => (Returned tt, set_isScanning b w).

Definition setIsConverting (b : bool) : M unit :=
  fun w => (Returned tt,
            mkWorld (directoryHandle w) (images w) (status w) (logs w)
                    (isScanning w) b (trace w)).

Definition appendLog (entry : string) : M unit :=
  fun w => (Returned tt,
            mkWorld (directoryHandle w) (images w) (status w)
                    (appendLog_update entry (logs w))
                    (isScanning w) (isConverting w) (trace w)).

(** [for (const x of xs) { body }]: a throw leaves the loop. *)
Fixpoint forOf {A} (xs : list A) (body : A -> M unit) : M unit :=
  match xs with
  | [] => ret tt
  | x :: rest => body x ;;; forOf rest body
  end.

(** [error instanceof Error ? error.message : fallback]. *)
Definition messageOf (error : Thrown) (fallback : string) : string :=
  match error with
  | ErrorObject message => message
  | OtherValue => fallback
  end.

(** ** Array.prototype.sort

    The sort is stable, and with a consistent comparator its result is the
    one stable insertion gives: [a] stays in front of [b] when
    [compareFn a b <= 0]. *)
Section Sort.
Context {A : Type} (compareFn : A -> A -> Z).

Fixpoint sort_insert (x : A) (l : list A) : list A :=
  match l with
  | [] => [x]
  | y :: rest =>
      if compareFn x y <=? 0 then x :: y :: rest
      else y :: sort_insert x rest
  end.

Fixpoint sort (l : list A) : list A :=
  match l with
  | [] => []
  | x :: rest => sort_insert x (sort rest)
  end.
End Sort.

(** The 2D context of a canvas. *)
Inductive CanvasRenderingContext2D :=
| Context2D (canvas : Canvas).

Record RasterizedSource := mkSource {
  width : N;
  height : N;
  draw : CanvasRenderingContext2D -> M unit;
  cleanup : M unit
}.

(** The quality literal [0.92]. *)
Definition WEBP_QUALITY : Q := 92 # 100.

Definition isGranted (s : PermissionState) : bool :=
  match s with
  | granted => true
  | _ => false
  end.

Section Pipeline.
(** The page globals, and [String.prototype.localeCompare] of the
    browser's locale. *)
Variable env : Env.
Variable localeCompare : string -> string -> Z.

Definition ensurePermission (handle : FileSystemDirectoryHandle)
    (mode : PermissionMode) : M bool :=
  match queryPermission handle, requestPermission handle with
  | Some query, Some request =>
      current <- performAnswered (EvQueryPermission mode)
                   (fun h => query h mode) ;;
      match current with
      | granted => ret true
      | denied => ret false
      | prompt =>
          result <- performAnswered (EvRequestPermission mode)
                      (fun h => request h mode) ;;
          ret (isGranted result)
      end
  | _, _ => ret true
  end.

Definition rasterize (file : File) : M RasterizedSource :=
  match createImageBitmap env with
  | Some decode =>
      bitmap <- perform (EvCreateImageBitmap file) (fun h => decode h file) ;;
      ret (mkSource (bitmap_width bitmap) (bitmap_height bitmap)
             (fun _ => perform (EvDrawImage (FromBitmap bitmap))
                         (fun h => drawImage env h (FromBitmap bitmap)))
             (perform (EvBitmapClose bitmap) (fun _ => Returned tt)))
  | None =>
      objectUrl <- perform (EvCreateObjectURL file)
                     (fun h => Returned (createObjectURL env h file)) ;;
      img <- perform (EvImageLoad objectUrl)
               (fun h => match loadImage env h objectUrl with
                         | Some image => Returned image
                         | None => Threw (ErrorObject "画像の読み込みに失敗しました。")
                         end) ;;
      ret (mkSource (img_width img) (img_height img)
             (fun _ => perform (EvDrawImage (FromImage img))
                         (fun h => drawImage env h (FromImage img)))
             (perform (EvRevokeObjectURL objectUrl) (fun _ => Returned tt)))
  end.

Definition canvasToBlob (canvas : Canvas) (mimeType : string) : M Blob :=
  let quality :=
    if String.eqb mimeType "image/webp" then Some WEBP_QUALITY else None in
  blob <- perform (EvToBlob canvas mimeType quality)
            (fun h => toBlob env h canvas mimeType quality) ;;
  match blob with
  | Some b => ret b
  | None => throw (ErrorObject "Canvas から Blob を生成できませんでした。")
  end.

Definition convertWithCanvas (file : File) (mimeType : string) : M Blob :=
  source <- rasterize file ;;
  let canvas := mkCanvas (width source) (height source) in
  context <- perform (EvGetContext canvas)
               (fun h => Returned (if getContext2d env h canvas
                                   then Some (Context2D canvas) else None)) ;;
  match context with
  | None =>
      cleanup source ;;;
      throw (ErrorObject "Canvas コンテキストを初期化できませんでした。")
  | Some context =>
      draw source context ;;;
      blob <- canvasToBlob canvas mimeType ;;
      cleanup source ;;;
      ret blob
  end.

(** The [for await] loop of [collectImageEntries]. *)
Fixpoint collectImageEntries_loop (children : list (string * FileSystemHandle))
    (result : list ImageEntry) : M (list ImageEntry) :=
  match children with
  | [] => ret result
  | (name, entry) :: rest =>
      match entry with
      | KindDirectory _ => collectImageEntries_loop rest result
      | KindFile fileHandle =>
          file <- perform (EvGetFile name) (getFile fileHandle) ;;
          if negb (SUPPORTED_MIME_TYPES_has (file_type file))
          then collectImageEntries_loop rest result
          else collectImageEntries_loop rest
                 (result ++ [mkImageEntry name fileHandle (file_size file)
                               (file_type file) (file_lastModified file)])%list
      end
  end.

Definition collectImageEntries (handle : FileSystemDirectoryHandle)
    : M (list ImageEntry) :=
  iterable <- perform EvEntries (fun h => Returned (entries handle h)) ;;
  result <- collectImageEntries_loop (fst iterable) [] ;;
  match snd iterable with
  | Some error => throw error
  | None =>
      ret (sort (fun a b => localeCompare (name a) (name b)) result)
  end.

(** [refreshDirectory(incoming)], [closureHandle] being the
    [directoryHandle] of the render that made the callback. *)
Definition refreshDirectory (incoming closureHandle : option FileSystemDirectoryHandle)
    : M unit :=
  match (match incoming with Some h => Some h | None => closureHandle end) with
  | None => ret tt
  | Some handle =>
      setIsScanning true ;;;
      setStatus "ディレクトリを読み込み中..." ;;;
      tryFinally
        (tryCatch
           (granted <- ensurePermission handle read ;;
            if negb granted then setStatus "読み取り権限を付与してください。"
            else
              items <- collectImageEntries handle ;;
              setImages items ;;;
              setStatus
                (if (0 <? List.length items)%nat
                 then "読み込み完了 (" ++ string_of_N (N.of_nat (List.length items)) ++ " 件)"
                 else "変換できるファイルが見つかりませんでした。"))
           (fun error =>
              setStatus (messageOf error "ディレクトリの読み込みに失敗しました。")))
        (set_isScanning false)
  end.

Definition successLog (candidate : ImageEntry) (newName : string)
    (blob : Blob) : string :=
  "✔ " ++ name candidate ++ " → " ++ newName
  ++ " (" ++ formatBytes (blob_size blob) ++ ")".

(** The [try] block of the batch loop, for one candidate. *)
Definition convertCandidate_try (directoryHandle : FileSystemDirectoryHandle)
    (config : DirectionConfig) (candidate : ImageEntry) : M unit :=
  setStatus ("変換中: " ++ name candidate) ;;;
  file <- perform (EvGetFile (name candidate)) (getFile (handle candidate)) ;;
  blob <- convertWithCanvas file (mime config) ;;
  let newName := replaceExtension (name candidate) (targetExt config) in
  newHandle <- perform (EvGetFileHandle newName)
                 (fun h => getFileHandle directoryHandle h newName) ;;
  writable <- perform (EvCreateWritable newName) (createWritable newHandle) ;;
  perform (EvWrite newName blob) (fun h => write writable h blob) ;;;
  perform (EvClose newName) (close writable) ;;;
  appendLog (successLog candidate newName blob).

Definition failureLog (candidate : ImageEntry) (error : Thrown) : string :=
  "✖ " ++ name candidate ++ ": "
  ++ messageOf error "このファイルの変換に失敗しました。".

(** The body of the batch loop: the [try] block and its [catch]. *)
Definition convertCandidate (directoryHandle : FileSystemDirectoryHandle)
    (config : DirectionConfig) (candidate : ImageEntry) : M unit :=
  tryCatch (convertCandidate_try directoryHandle config candidate)
           (fun error => appendLog (failureLog candidate error)).

Definition conversionTargets (config : DirectionConfig)
    (images : list ImageEntry) : list ImageEntry :=
  filter (fun file => hasExtension (name file) (sourceExt config)) images.

(** [handleConversion(direction)]; [directoryHandle] and [images] are
    those of the render the button belongs to. *)
Definition handleConversion (direction : ConversionDirection) : M unit :=
  fun w =>
    match directoryHandle w with
    | None => ret tt w
    | Some dirHandle =>
        let config := DIRECTION_CONFIG direction in
        let targets := conversionTargets config (images w) in
        (if (List.length targets =? 0)%nat
         then setStatus "対象ファイルが見つかりませんでした。"
         else
           granted <- ensurePermission dirHandle readwrite ;;
           if negb granted then setStatus "書き込み権限を付与してください。"
           else
             setIsConverting true ;;;
             setStatus (label config ++ " を実行中 ("
                        ++ string_of_N (N.of_nat (List.length targets)) ++ " 件)") ;;;
             forOf targets (convertCandidate dirHandle config) ;;;
             setStatus "変換が完了しました。" ;;;
             setIsConverting false ;;;
             refreshDirectory None (Some dirHandle)) w
    end.

End Pipeline.

(** ** Observations on a run *)

(** The host calls a computation makes when started in [w]. *)
Definition emitted {A} (m : M A) (w : World) : History :=
  skipn (List.length (trace w)) (trace (snd (m w))).

Definition isPermissionEvent (e : Event) : bool :=
  match e with
  | EvQueryPermission _ _ | EvRequestPermission _ _ => true
  | _ => false
  end.

Definition isRequest (e : Event) : bool :=
  match e with
  | EvRequestPermission _ _ => true
  | _ => false
  end.

(** A file is read by [getFile] and written through [getFileHandle],
    [createWritable], [write] and [close]. *)
Definition isFileAccess (e : Event) : bool :=
  match e with
  | EvGetFile _ | EvGetFileHandle _ | EvCreateWritable _
  | EvWrite _ _ | EvClose _ => true
  | _ => false
  end.

(** The two bodies of [cleanup]: [bitmap.close()] and
    [URL.revokeObjectURL(objectUrl)]. *)
Definition isCleanup (e : Event) : bool :=
  match e with
  | EvBitmapClose _ | EvRevokeObjectURL _ => true
  | _ => false
  end.

Definition count (p : Event -> bool) (t : History) : nat :=
  List.length (filter p t).

Fixpoint startsWith (s start : string) {struct start} : bool :=
  match start with
  | EmptyString => true
  | String a start' =>
      match s with
      | EmptyString => false
      | String b s' => (Ascii.eqb a b && startsWith s' start')%bool
      end
  end.

(** The two shapes of a log line. *)
Definition isSuccessLog (entry : string) : bool := startsWith entry "✔ ".
Definition isFailureLog (entry : string) : bool := startsWith entry "✖ ".


(** A log line of either shape. *)
Definition isOutcomeLog (entry : string) : Prop :=
  isSuccessLog entry = true \/ isFailureLog entry = true.

(** A computation that leaves the log alone. *)
Definition keepsLogs {A} (m : M A) : Prop :=
  forall w, logs (snd (m w)) = logs w.

(** The closures of a rasterized source only call the host. *)
Definition tidySource (source : RasterizedSource) : Prop :=
  (forall context, keepsLogs (draw source context)) /\
  keepsLogs (cleanup source).

Create HintDb keeps.

(** A comparator [sort] can rely on: total and transitive. *)
Definition consistentComparator (compareFn : string -> string -> Z) : Prop :=
  (forall a b, compareFn a b <= 0 \/ compareFn b a <= 0) /\
  (forall a b c, compareFn a b <= 0 -> compareFn b c <= 0 -> compareFn a c <= 0).

Definition byName (compareFn : string -> string -> Z) (a b : ImageEntry) : Prop :=
  compareFn (name a) (name b) <= 0.

(** ** A sample page and directory *)
Module Sample.

(** Code-unit order, the comparison of a locale without tailoring. *)
Definition compareCodeUnits (a b : string) : Z :=
  match String.compare a b with
  | Lt => -1
  | Eq => 0
  | Gt => 1
  end.

Definition writable : FileSystemWritableFileStream :=
  mkWritable (fun _ _ => Returned tt) (fun _ => Returned tt).

Definition fileHandle (name type : string) : FileSystemFileHandle :=
  mkFileHandle name
    (fun _ => Returned (mkFile name type 1000 0))
    (fun _ => Returned writable).

Definition entry (name type : string) : ImageEntry :=
  mkImageEntry name (fileHandle name type) 1000 type 0.

(** A page that decodes every file but [b.png] ([wide.png] to a bitmap
    40000 pixels wide), and encodes to 2048 bytes unless the canvas is wider
    than 32767 pixels. *)
Definition env : Env :=
  mkEnv
    (Some (fun _ file =>
             if String.eqb (file_name file) "b.png"
             then Threw (ErrorObject "The source image could not be decoded.")
             else if String.eqb (file_name file) "wide.png"
             then Returned (mkImageBitmap 1 40000 1)
             else Returned (mkImageBitmap 0 10 10)))
    (fun _ file => "blob:" ++ file_name file)
    (fun _ url => Some (mkImage url 10 10))
    (fun _ _ => true)
    (fun _ _ => Returned tt)
    (fun _ canvas mimeType _ =>
       if (32767 <? canvas_width canvas)%N then Returned None
       else Returned (Some (mkBlob 2048 mimeType))).

(** The same page without [createImageBitmap]. *)
Definition legacyEnv : Env :=
  mkEnv None (createObjectURL env) (loadImage env) (getContext2d env)
        (drawImage env) (toBlob env).

(** A page on which [getContext("2d")] gives [null]. *)
Definition noContextEnv : Env :=
  mkEnv (createImageBitmap env) (createObjectURL env) (loadImage env)
        (fun _ _ => false) (drawImage env) (toBlob env).

Definition children : list (string * FileSystemHandle) :=
  [ ("c.png", KindFile (fileHandle "c.png" "image/png"));
    ("sub", KindDirectory "sub");
    ("notes.txt", KindFile (fileHandle "notes.txt" "text/plain"));
    ("a.png", KindFile (fileHandle "a.png" "image/png"));
    ("y.webp", KindFile (fileHandle "y.webp" "image/webp"));
    ("b.png", KindFile (fileHandle "b.png" "image/png")) ].

Definition directory
    (query request : option (History -> PermissionMode -> Outcome PermissionState))
    : FileSystemDirectoryHandle :=
  mkDirectoryHandle "pictures" query request
    (fun _ => (children, None))
    (fun _ name => Returned (fileHandle name "")).

Definition answers (s : PermissionState)
    : option (History -> PermissionMode -> Outcome PermissionState) :=
  Some (fun _ _ => Returned s).

Definition grantedDirectory := directory (answers granted) (answers granted).
Definition deniedDirectory := directory (answers denied) (answers granted).
Definition promptDirectory := directory (answers prompt) (answers granted).
(** [queryPermission] alone, reporting [denied]. *)
Definition queryOnlyDirectory := directory (answers denied) None.

Definition inventory : list ImageEntry :=
  [ entry "a.png" "image/png"; entry "b.png" "image/png";
    entry "c.png" "image/png"; entry "y.webp" "image/webp" ].

Definition world (dir : FileSystemDirectoryHandle) (images : list ImageEntry)
    : World :=
  mkWorld (Some dir) images None [] false false [].

Definition wideFile : File := mkFile "wide.png" "image/png" 20000 0.
Definition smallFile : File := mkFile "a.png" "image/png" 1000 0.

End Sample.

(** ** The rest of the component *)

(** [pngCount] and [webpCount], the [useMemo] counters of [Home]. *)
Definition pngCount (images : list ImageEntry) : nat :=
  List.length (filter (fun image => hasExtension (name image) ".png") images).

Definition webpCount (images : list ImageEntry) : nat :=
  List.length (filter (fun image => hasExtension (name image) ".webp") images).

Definition setDirectoryHandle (handle : FileSystemDirectoryHandle) : M unit :=
  fun w => (Returned tt,
            mkWorld (Some handle) (images w) (status w) (logs w)
                    (isScanning w) (isConverting w) (trace w)).

Definition setLogs (entries : list string) : M unit :=
  fun w => (Returned tt,
            mkWorld (directoryHandle w) (images w) (status w) entries
                    (isScanning w) (isConverting w) (trace w)).

(** How [window.showDirectoryPicker] ends: with a handle, or with a thrown
    value, [isAbortError] telling whether that value is a [DOMException]
    named ["AbortError"]. *)
Inductive PickerOutcome :=
| Picked (handle : FileSystemDirectoryHandle)
| PickerThrew (error : Thrown) (isAbortError : bool).

(** The [window] of the page: whether ["showDirectoryPicker" in window], and
    the function itself when it is not [undefined]. *)
Record Window := mkWindow {
  canUseFsApi : bool;
  showDirectoryPicker : option (History -> PickerOutcome)
}.

(** The [catch] of [handleDirectoryPick]. *)
Definition handleDirectoryPick_catch (error : Thrown) (isAbortError : bool)
    : M unit :=
  if isAbortError then ret tt
  else setStatus (messageOf error "ディレクトリの選択に失敗しました。").

(** [handleDirectoryPick()].  The picker is the only call of the [try] block
    that can throw an [AbortError]; the picker call itself is not put in
    the trace. *)
Definition handleDirectoryPick (localeCompare : string -> string -> Z)
    (window : Window) : M unit :=
  fun w =>
    if negb (canUseFsApi window) then ret tt w
    else
      match showDirectoryPicker window with
      | None => ret tt w
      | Some picker =>
          match picker (trace w) with
          | PickerThrew error isAbortError =>
              handleDirectoryPick_catch error isAbortError w
          | Picked handle =>
              tryCatch
                (setDirectoryHandle handle ;;;
                 setLogs [] ;;;
                 refreshDirectory localeCompare (Some handle) (directoryHandle w))
                (fun error => handleDirectoryPick_catch error false) w
          end
      end.

(** ** More observations *)

(** A computation that leaves one cell of the state alone. *)
Definition keeps {A X} (cell : World -> X) (m : M A) : Prop :=
  forall w, cell (snd (m w)) = cell w.

(** A computation that only adds calls of one kind to the trace. *)
Definition emitsOnly {A} (p : Event -> bool) (m : M A) : Prop :=
  forall w, exists calls,
    trace (snd (m w)) = (trace w ++ calls)%list /\ forallb p calls = true.

(** A cell that recording a call does not touch: every cell but the
    trace. *)
Definition untraced {X} (cell : World -> X) : Prop :=
  forall e w, cell (record e w) = cell w.

(** The state in which [refreshDirectory] asks for permission:
    [isScanning] set, the loading status shown. *)
Definition scanStarted (w : World) : World :=
  snd ((setIsScanning true ;;; setStatus "ディレクトリを読み込み中...") w).

(** A file that can always be read and always has a supported type. *)
Definition alwaysSupported (fileHandle : FileSystemFileHandle) : Prop :=
  forall h, exists file,
      getFile fileHandle h = Returned file /\
      SUPPORTED_MIME_TYPES_has (file_type file) = true.

(** A computation that keeps the log within its 20 entries. *)
Definition logBounded {A} (m : M A) : Prop :=
  forall w, (List.length (logs w) <= 20)%nat ->
            (List.length (logs (snd (m w))) <= 20)%nat.

Definition isGetFile (e : Event) : bool :=
  match e with
  | EvGetFile _ => true
  | _ => false
  end.

(** Decoding, drawing and encoding. *)
Definition isCanvasWork (e : Event) : bool :=
  match e with
  | EvCreateImageBitmap _ | EvBitmapClose _ | EvCreateObjectURL _
  | EvImageLoad _ | EvRevokeObjectURL _ | EvGetContext _ | EvDrawImage _
  | EvToBlob _ _ _ => true
  | _ => false
  end.

Definition isModeOf (mode : PermissionMode) (e : Event) : bool :=
  match e, mode with
  | EvQueryPermission read _, read | EvRequestPermission read _, read
  | EvQueryPermission readwrite _, readwrite
  | EvRequestPermission readwrite _, readwrite => true
  | _, _ => false
  end.

(** What a scan may call: the permission methods for [read], [entries] and
    [getFile]. *)
Definition isScanCall (e : Event) : bool :=
  match e with
  | EvEntries | EvGetFile _ => true
  | _ => isModeOf read e
  end.

(** The name a call creates, opens for writing, writes or closes. *)
Definition writtenName (e : Event) : option string :=
  match e with
  | EvGetFileHandle name | EvCreateWritable name | EvWrite name _
  | EvClose name => Some name
  | _ => None
  end.

(** A call that, if it writes, writes to a name with the target suffix of
    the direction and not with its source suffix. *)
Definition sparesSources (config : DirectionConfig) (e : Event) : bool :=
  match writtenName e with
  | Some name =>
      (hasExtension name (targetExt config)
       && negb (hasExtension name (sourceExt config)))%bool
  | None => true
  end.

(** A string of ASCII characters only. *)
Fixpoint isAscii (s : string) : bool :=
  match s with
  | EmptyString => true
  | String c rest => ((nat_of_ascii c <? 128)%nat && isAscii rest)%bool
  end.

(** A call on a file to be written. *)
Definition isWrittenTo (e : Event) : bool :=
  match writtenName e with
  | Some _ => true
  | None => false
  end.

(** The pixel size of what is drawn. *)
Definition sourceSize (source : ImageSource) : N * N :=
  match source with
  | FromBitmap bitmap => (bitmap_width bitmap, bitmap_height bitmap)
  | FromImage img => (img_width img, img_height img)
  end.

(** The children of kind file. *)
Definition fileChildren (children : list (string * FileSystemHandle))
    : list (string * FileSystemFileHandle) :=
  flat_map (fun child => match snd child with
                         | KindFile fileHandle => [(fst child, fileHandle)]
                         | KindDirectory _ => []
                         end) children.

(** ** More sample data *)
Module Scenario.

(** A file whose [getFile] rejects. *)
Definition unreadable (name : string) : FileSystemFileHandle :=
  mkFileHandle name
    (fun _ => Threw (ErrorObject "A requested file or directory could not be found."))
    (fun _ => Returned Sample.writable).

Definition brokenDirectory : FileSystemDirectoryHandle :=
  mkDirectoryHandle "broken" (Sample.answers granted) (Sample.answers granted)
    (fun _ => ([ ("a.png", KindFile (Sample.fileHandle "a.png" "image/png"));
                 ("gone.png", KindFile (unreadable "gone.png"));
                 ("z.png", KindFile (Sample.fileHandle "z.png" "image/png")) ],
               None))
    (fun _ name => Returned (Sample.fileHandle name "")).

(** A directory whose permission query rejects. *)
Definition throwingDirectory : FileSystemDirectoryHandle :=
  Sample.directory
    (Some (fun _ _ => Threw (ErrorObject "The request is not allowed.")))
    (Sample.answers granted).

(** A stream whose [write] rejects, and a directory that hands it out. *)
Definition rejectingWritable : FileSystemWritableFileStream :=
  mkWritable (fun _ _ => Threw (ErrorObject "The quota has been exceeded."))
             (fun _ => Returned tt).

Definition fullDirectory : FileSystemDirectoryHandle :=
  mkDirectoryHandle "full" (Sample.answers granted) (Sample.answers granted)
    (fun _ => (Sample.children, None))
    (fun _ name =>
       Returned (mkFileHandle name
                   (fun _ => Returned (mkFile name "" 0 0))
                   (fun _ => Returned rejectingWritable))).

(** A page whose image elements fail to load, without
    [createImageBitmap]. *)
Definition failingLegacyEnv : Env :=
  mkEnv None (createObjectURL Sample.env) (fun _ _ => None)
        (getContext2d Sample.env) (drawImage Sample.env) (toBlob Sample.env).

Definition cancellingWindow : Window :=
  mkWindow true
    (Some (fun _ => PickerThrew (ErrorObject "The user aborted a request.") true)).

Definition failingWindow : Window :=
  mkWindow true
    (Some (fun _ => PickerThrew (ErrorObject "Must be handling a user gesture.") false)).

Definition pickingWindow : Window :=
  mkWindow true (Some (fun _ => Picked Sample.grantedDirectory)).

(** A state with a log of earlier runs. *)
Definition usedWorld : World :=
  mkWorld (Some Sample.deniedDirectory) Sample.inventory (Some "old status")
          ["✔ old.png → old.webp (1.0 KB)"] false false [].

End Scenario.

(** * Properties *)

(** ** Strings *)

Lemma lastIndexOf_lower_bound (s : string) (c : ascii) :
  -1 <= lastIndexOf s c.
Proof.
  induction s as [|a rest IH]; simpl; [lia|].
  destruct (lastIndexOf rest c =? -1) eqn:E.
  - destruct (Ascii.eqb a c); lia.
  - lia.
Qed.

Lemma lastIndexOf_no_dot (s : string) :
  hasDot s = false -> lastIndexOf s "." = -1.
Proof.
  induction s as [|a rest IH]; simpl; [reflexivity|].
  intros H. apply orb_false_iff in H as [Ha Hrest].
  rewrite (IH Hrest). simpl. now rewrite Ha.
Qed.

Lemma lastIndexOf_after_stem (stem suffix : string) :
  hasDot suffix = false ->
  lastIndexOf (stem ++ String "." suffix) "." = Z.of_nat (String.length stem).
Proof.
  intros Hsuf. induction stem as [|a rest IH].
  - simpl. now rewrite (lastIndexOf_no_dot _ Hsuf).
  - cbn [append lastIndexOf]. rewrite IH.
    destruct (Z.of_nat (String.length rest) =? -1) eqn:E;
      [apply Z.eqb_eq in E; lia|].
    change (String.length (String a rest)) with (S (String.length rest)).
    lia.
Qed.

Lemma substring_prefix_of_append (stem rest : string) :
  substring 0 (String.length stem) (stem ++ rest) = stem.
Proof.
  induction stem as [|a stem IH]; simpl.
  - now destruct rest.
  - now rewrite IH.
Qed.

Lemma length_append (a b : string) :
  String.length (a ++ b) = (String.length a + String.length b)%nat.
Proof.
  induction a as [|c a IH]; simpl; [reflexivity | now rewrite IH].
Qed.

Lemma slice_prefix_of_append (stem rest : string) :
  slice (stem ++ rest) 0 (Z.of_nat (String.length stem)) = stem.
Proof.
  unfold slice. rewrite length_append.
  replace (0 <? 0) with false by reflexivity.
  destruct (Z.of_nat (String.length stem) <? 0) eqn:E;
    [apply Z.ltb_lt in E; lia|].
  rewrite Z.min_l by lia. rewrite Z.min_l by lia.
  rewrite Z.sub_0_r, Z.max_l by lia.
  rewrite Nat2Z.id. simpl Z.to_nat.
  apply substring_prefix_of_append.
Qed.

(** ** The bounded log *)

Lemma firstn_app_firstn {A} (n : nat) (l1 l2 : list A) :
  firstn n (l1 ++ firstn n l2) = firstn n (l1 ++ l2).
Proof.
  rewrite !firstn_app, firstn_firstn.
  do 2 f_equal. lia.
Qed.

Lemma appendLog_update_length (entry : string) (prev : list string) :
  List.length (appendLog_update entry prev) = Nat.min 20 (S (List.length prev)).
Proof.
  unfold appendLog_update. now rewrite length_firstn.
Qed.

Lemma appendLog_update_fold (later : list string) (entry : string)
    (prev : list string) :
  fold_left (fun l e => appendLog_update e l) later (appendLog_update entry prev)
  = firstn 20 (rev later ++ entry :: prev).
Proof.
  revert entry prev. induction later as [|e later IH]; intros entry prev.
  - reflexivity.
  - cbn [fold_left rev]. rewrite IH. unfold appendLog_update.
    change (e :: firstn 20 (entry :: prev))
      with ([e] ++ firstn 20 (entry :: prev))%list.
    rewrite app_assoc, firstn_app_firstn.
    now rewrite <- app_assoc.
Qed.

Lemma forOf_appendLog (later : list string) (w : World) :
  fst (forOf later appendLog w) = Returned tt /\
  logs (snd (forOf later appendLog w))
  = fold_left (fun l e => appendLog_update e l) later (logs w).
Proof.
  revert w. induction later as [|e later IH]; intros w.
  - split; reflexivity.
  - cbn [forOf fold_left]. unfold bind at 1. cbn [appendLog].
    apply IH.
Qed.

(** ** Traces *)

Lemma skipn_length_app {A} (l extra : list A) :
  skipn (List.length l) (l ++ extra) = extra.
Proof.
  induction l as [|x l IH]; simpl; [reflexivity | exact IH].
Qed.

Lemma skipn_length_self {A} (l : list A) :
  skipn (List.length l) l = [].
Proof.
  rewrite <- (app_nil_r l) at 2. apply skipn_length_app.
Qed.

(** ** ExtensionMatcher *)

Lemma append_substring_split (s : string) (k : nat) :
  (k <= String.length s)%nat ->
  s = substring 0 k s ++ substring k (String.length s - k) s.
Proof.
  revert k. induction s as [|a s IH]; intros k Hk.
  - destruct k; [reflexivity | cbn in Hk; lia].
  - destruct k as [|k].
    + cbn [substring append String.length Nat.sub].
      f_equal. clear. induction s as [|b s IH]; [reflexivity|].
      cbn [String.length substring]. now rewrite <- IH.
    + cbn [substring append String.length Nat.sub]. f_equal.
      apply IH. cbn in Hk. lia.
Qed.

Lemma endsWith_true (s suffix : string) :
  endsWith s suffix = true -> exists stem, s = stem ++ suffix.
Proof.
  unfold endsWith. intros H. apply andb_true_iff in H as [Hlen Hsub].
  apply Nat.leb_le in Hlen. apply String.eqb_eq in Hsub.
  exists (substring 0 (String.length s - String.length suffix) s).
  pose proof (append_substring_split s
                (String.length s - String.length suffix)) as Hs.
  replace (String.length s - (String.length s - String.length suffix))%nat
    with (String.length suffix) in Hs by lia.
  rewrite Hsub in Hs. apply Hs. lia.
Qed.

Lemma toLowerCase_append_inv (lowered1 lowered2 : string) :
  forall s,
    toLowerCase s = lowered1 ++ lowered2 ->
    exists s1 s2,
      s = s1 ++ s2 /\ toLowerCase s1 = lowered1 /\ toLowerCase s2 = lowered2.
Proof.
  induction lowered1 as [|a lowered1 IH]; intros s H.
  - exists EmptyString, s. repeat split. exact H.
  - destruct s as [|c s]; [discriminate H|].
    cbn [toLowerCase append] in H. injection H as Ha Hrest.
    destruct (IH s Hrest) as (s1 & s2 & -> & H1 & H2).
    exists (String c s1), s2. cbn [append toLowerCase]. rewrite Ha, H1.
    repeat split. exact H2.
Qed.

Lemma lowerAscii_dot (c : ascii) :
  Ascii.eqb (lowerAscii c) "." = Ascii.eqb c ".".
Proof.
  destruct c as [[] [] [] [] [] [] [] []]; reflexivity.
Qed.

Lemma hasDot_toLowerCase (s : string) : hasDot (toLowerCase s) = hasDot s.
Proof.
  induction s as [|c s IH]; [reflexivity|].
  cbn [toLowerCase hasDot]. now rewrite lowerAscii_dot, IH.
Qed.

(** A name that matches a source suffix ends in that suffix, in some
    letter case. *)
Lemma hasExtension_true (name : string) (direction : ConversionDirection) :
  hasExtension name (sourceExt (DIRECTION_CONFIG direction)) = true ->
  exists stem suffix,
    name = stem ++ String "." suffix /\
    toLowerCase (String "." suffix) = sourceExt (DIRECTION_CONFIG direction) /\
    hasDot suffix = false.
Proof.
  unfold hasExtension. intros H.
  apply endsWith_true in H as [lowered H].
  apply toLowerCase_append_inv in H as (stem & ending & -> & _ & Hending).
  destruct ending as [|c suffix]; [destruct direction; discriminate Hending|].
  assert (Hc : Ascii.eqb c "." = true).
  { rewrite <- lowerAscii_dot.
    destruct direction; cbn in Hending; injection Hending as -> _; reflexivity. }
  apply Ascii.eqb_eq in Hc. subst c.
  exists stem, suffix. split; [reflexivity|]. split; [exact Hending|].
  rewrite <- hasDot_toLowerCase.
  destruct direction; cbn in Hending; injection Hending as ->; reflexivity.
Qed.

(** C5. The target name is the source name with everything from its last
    ["."] on replaced by the target suffix; a name without ["."] gets the
    target suffix appended.  For a name that matches the source suffix of a
    direction, what is replaced is that suffix.  So [photo.png] gives
    [photo.webp] and [noext] gives [noext.webp]. *)
Theorem replaceExtension_replaces_suffix (fileName nextExtension : string) :
  (hasDot fileName = false ->
   replaceExtension fileName nextExtension = fileName ++ nextExtension) /\
  (forall stem suffix,
      fileName = stem ++ String "." suffix ->
      hasDot suffix = false ->
      replaceExtension fileName nextExtension = stem ++ nextExtension) /\
  (forall direction,
      hasExtension fileName (sourceExt (DIRECTION_CONFIG direction)) = true ->
      exists stem suffix,
        fileName = stem ++ suffix /\
        toLowerCase suffix = sourceExt (DIRECTION_CONFIG direction) /\
        replaceExtension fileName nextExtension = stem ++ nextExtension) /\
  replaceExtension "photo.png" ".webp" = "photo.webp" /\
  replaceExtension "noext" ".webp" = "noext.webp".
Proof.
  assert (Hcut : forall stem suffix,
             fileName = stem ++ String "." suffix ->
             hasDot suffix = false ->
             replaceExtension fileName nextExtension = stem ++ nextExtension).
  { intros stem suffix -> H. unfold replaceExtension.
    rewrite (lastIndexOf_after_stem _ _ H).
    destruct (Z.of_nat (String.length stem) =? -1) eqn:E;
      [apply Z.eqb_eq in E; lia|].
    now rewrite slice_prefix_of_append. }
  split; [|split; [exact Hcut|split; [|split; reflexivity]]].
  - intros H. unfold replaceExtension.
    now rewrite (lastIndexOf_no_dot _ H).
  - intros direction H.
    apply hasExtension_true in H as (stem & suffix & Hname & Hlower & Hdot).
    exists stem, (String "." suffix).
    split; [exact Hname|]. split; [exact Hlower|].
    now apply (Hcut stem suffix).
Qed.

Lemma replaceExtension_replaces_suffix_witness :
  replaceExtension "archive.tar.PNG" ".webp" = "archive.tar" ++ ".webp" /\
  replaceExtension "README" ".png" = "README" ++ ".png".
Proof.
  split.
  - apply (proj1 (proj2 (replaceExtension_replaces_suffix
                           "archive.tar.PNG" ".webp")) "archive.tar" "PNG");
      reflexivity.
  - apply (proj1 (replaceExtension_replaces_suffix "README" ".png"));
      reflexivity.
Defined.

(** ** The log *)

(** C9. An append puts the new entry first and keeps the 20 most recent
    entries, in order; both hold again after any number of further
    appends. *)
Theorem appendLog_newest_first_bounded (entry : string) (w : World) :
  fst (appendLog entry w) = Returned tt /\
  logs (snd (appendLog entry w)) = firstn 20 (entry :: logs w) /\
  hd_error (logs (snd (appendLog entry w))) = Some entry /\
  (List.length (logs (snd (appendLog entry w))) <= 20)%nat /\
  forall later,
    logs (snd (forOf later appendLog (snd (appendLog entry w))))
    = firstn 20 (rev later ++ entry :: logs w).
Proof.
  split; [reflexivity|]. split; [reflexivity|]. split; [reflexivity|]. split.
  - cbn [appendLog snd logs]. rewrite appendLog_update_length. lia.
  - intros later.
    rewrite (proj2 (forOf_appendLog later _)). cbn [appendLog snd logs].
    apply appendLog_update_fold.
Qed.

(** ** PermissionGate *)

Lemma ensurePermission_capable (handle : FileSystemDirectoryHandle)
    (query request : History -> PermissionMode -> Outcome PermissionState)
    (mode : PermissionMode) (w : World) :
  queryPermission handle = Some query ->
  requestPermission handle = Some request ->
  let q := EvQueryPermission mode (query (trace w) mode) in
  ensurePermission handle mode w =
  match query (trace w) mode with
  | Returned granted => (Returned true, record q w)
  | Returned denied => (Returned false, record q w)
  | Returned prompt =>
      let answer := request (trace w ++ [q])%list mode in
      (match answer with
       | Returned s => Returned (isGranted s)
       | Threw e => Threw e
       end,
       record (EvRequestPermission mode answer) (record q w))
  | Threw e => (Threw e, record q w)
  end.
Proof.
  intros Hq Hr. unfold ensurePermission. rewrite Hq, Hr.
  unfold bind, performAnswered.
  destruct (query (trace w) mode) as [[| |]|e]; try reflexivity.
  cbn [record trace].
  destruct (request (trace w ++ [EvQueryPermission mode (Returned prompt)])%list mode);
    reflexivity.
Qed.

Lemma ensurePermission_fallback (handle : FileSystemDirectoryHandle)
    (mode : PermissionMode) (w : World) :
  queryPermission handle = None \/ requestPermission handle = None ->
  ensurePermission handle mode w = (Returned true, w).
Proof.
  unfold ensurePermission.
  intros [H|H]; rewrite H; [|destruct (queryPermission handle)]; reflexivity.
Qed.

(** C3. When the state [ensurePermission] queried is [granted] it returns
    true and requests nothing; when it is [denied] it returns false and
    requests nothing; otherwise it makes exactly one request and returns
    true iff that request was granted. *)
Theorem ensurePermission_by_queried_state
    (handle : FileSystemDirectoryHandle) (mode : PermissionMode) (w : World)
    (current : PermissionState) :
  In (EvQueryPermission mode (Returned current))
     (emitted (ensurePermission handle mode) w) ->
  let result := fst (ensurePermission handle mode w) in
  let calls := emitted (ensurePermission handle mode) w in
  match current with
  | granted => result = Returned true /\ count isRequest calls = 0%nat
  | denied => result = Returned false /\ count isRequest calls = 0%nat
  | prompt =>
      count isRequest calls = 1%nat /\
      (result = Returned true <->
       In (EvRequestPermission mode (Returned granted)) calls)
  end.
Proof.
  unfold emitted.
  destruct (queryPermission handle) as [query|] eqn:Hq;
    [destruct (requestPermission handle) as [request|] eqn:Hr|].
  - rewrite (ensurePermission_capable handle query request mode w Hq Hr).
    cbv zeta.
    destruct (query (trace w) mode) as [[| |]|e];
      cbn [fst snd record trace];
      rewrite <- ?app_assoc, skipn_length_app; cbn [app In];
      intros [H|H]; try (destruct H as [H|H]); try discriminate H;
      try contradiction; injection H as <-.
    + split; reflexivity.
    + split; reflexivity.
    + split; [reflexivity|].
      destruct (request _ mode) as [[| |]|e]; cbn [isGranted]; split;
        intros H; try discriminate H; auto;
        destruct H as [H|[H|[]]]; discriminate H.
  - rewrite (ensurePermission_fallback handle mode w (or_intror Hr)).
    cbn [snd]. rewrite skipn_length_self. intros [].
  - rewrite (ensurePermission_fallback handle mode w (or_introl Hq)).
    cbn [snd]. rewrite skipn_length_self. intros [].
Qed.

Lemma ensurePermission_by_queried_state_witness :
  let w := Sample.world Sample.promptDirectory Sample.inventory in
  count isRequest (emitted (ensurePermission Sample.promptDirectory readwrite) w)
  = 1%nat /\
  (fst (ensurePermission Sample.promptDirectory readwrite w) = Returned true <->
   In (EvRequestPermission readwrite (Returned granted))
      (emitted (ensurePermission Sample.promptDirectory readwrite) w)).
Proof.
  intros w.
  apply (ensurePermission_by_queried_state
           Sample.promptDirectory readwrite w prompt).
  vm_compute. left. reflexivity.
Defined.

(** C10. A handle on which [requestPermission] is not a function is
    granted both modes without a query, whatever its [queryPermission]
    would report; the same holds when [queryPermission] is missing, and
    only a handle with both functions is queried. *)
Theorem ensurePermission_implicit_grant
    (handle : FileSystemDirectoryHandle) (w : World) :
  (requestPermission handle = None ->
   forall mode,
     ensurePermission handle mode w = (Returned true, w) /\
     emitted (ensurePermission handle mode) w = []) /\
  (queryPermission handle = None ->
   forall mode, ensurePermission handle mode w = (Returned true, w)) /\
  (forall query request,
      queryPermission handle = Some query ->
      requestPermission handle = Some request ->
      forall mode,
        hd_error (emitted (ensurePermission handle mode) w)
        = Some (EvQueryPermission mode (query (trace w) mode))).
Proof.
  split; [|split].
  - intros H mode. unfold emitted.
    rewrite (ensurePermission_fallback handle mode w (or_intror H)).
    split; [reflexivity | apply skipn_length_self].
  - intros H mode. apply ensurePermission_fallback. now left.
  - intros query request Hq Hr mode. unfold emitted.
    rewrite (ensurePermission_capable handle query request mode w Hq Hr).
    cbv zeta.
    destruct (query (trace w) mode) as [[| |]|e];
      cbn [fst snd record trace];
      rewrite <- ?app_assoc, skipn_length_app; reflexivity.
Qed.

Lemma ensurePermission_implicit_grant_witness :
  let w := Sample.world Sample.queryOnlyDirectory Sample.inventory in
  (exists query,
      queryPermission Sample.queryOnlyDirectory = Some query /\
      query (trace w) readwrite = Returned denied) /\
  ensurePermission Sample.queryOnlyDirectory read w = (Returned true, w) /\
  ensurePermission Sample.queryOnlyDirectory readwrite w = (Returned true, w).
Proof.
  intros w. split; [|split].
  - eexists. split; reflexivity.
  - apply (proj1 (ensurePermission_implicit_grant Sample.queryOnlyDirectory w));
      reflexivity.
  - apply (proj1 (ensurePermission_implicit_grant Sample.queryOnlyDirectory w));
      reflexivity.
Defined.

(** ** FormatEncoder *)

Lemma emitted_perform {A} (e : Event) (answer : History -> Outcome A)
    (w : World) :
  emitted (perform e answer) w = [e].
Proof.
  unfold emitted, perform, record. cbn [snd trace].
  apply skipn_length_app.
Qed.

(** C8. [canvasToBlob] makes one [toBlob] call, with quality 0.92 for
    [image/webp] and with no quality for [image/png] (or any other type); a
    [null] blob makes it reject with an [Error], a blob is passed on. *)
Theorem canvasToBlob_quality_and_null_blob (env : Env) (canvas : Canvas)
    (mimeType : string) (w : World) :
  let quality :=
    if String.eqb mimeType "image/webp" then Some WEBP_QUALITY else None in
  emitted (canvasToBlob env canvas mimeType) w
  = [EvToBlob canvas mimeType quality] /\
  emitted (canvasToBlob env canvas "image/webp") w
  = [EvToBlob canvas "image/webp" (Some (92 # 100))] /\
  emitted (canvasToBlob env canvas "image/png") w
  = [EvToBlob canvas "image/png" None] /\
  fst (canvasToBlob env canvas mimeType w)
  = match toBlob env (trace w) canvas mimeType quality with
    | Returned (Some blob) => Returned blob
    | Returned None =>
        Threw (ErrorObject "Canvas から Blob を生成できませんでした。")
    | Threw e => Threw e
    end.
Proof.
  assert (Hcalls : forall m,
             emitted (canvasToBlob env canvas m) w
             = [EvToBlob canvas m
                  (if String.eqb m "image/webp" then Some WEBP_QUALITY else None)]).
  { intros m. unfold emitted, canvasToBlob, bind, perform.
    destruct (toBlob env (trace w) canvas m _) as [[b|]|e];
      cbn [snd ret throw record trace]; apply skipn_length_app. }
  cbv zeta. split; [apply Hcalls|].
  split; [apply (Hcalls "image/webp")|].
  split; [apply (Hcalls "image/png")|].
  unfold canvasToBlob, bind, perform.
  destruct (toBlob env (trace w) canvas mimeType _) as [[b|]|e]; reflexivity.
Qed.

(** C7, where the code departs from the claim.  A source is rasterized, the
    canvas has a context, and [toBlob] calls back with [null]:
    [convertWithCanvas] rejects and [cleanup] has not run.  On the sibling
    failure path, a [null] context, and on success it has run once. *)
Theorem convertWithCanvas_encode_failure_skips_cleanup :
  let w := Sample.world Sample.grantedDirectory Sample.inventory in
  (exists source w1, rasterize Sample.env Sample.wideFile w = (Returned source, w1)) /\
  fst (convertWithCanvas Sample.env Sample.wideFile "image/webp" w)
  = Threw (ErrorObject "Canvas から Blob を生成できませんでした。") /\
  count isCleanup
    (emitted (convertWithCanvas Sample.env Sample.wideFile "image/webp") w) = 0%nat /\
  count isCleanup
    (emitted (convertWithCanvas Sample.noContextEnv Sample.wideFile "image/webp") w)
  = 1%nat /\
  count isCleanup
    (emitted (convertWithCanvas Sample.env Sample.smallFile "image/webp") w) = 1%nat.
Proof.
  intros w. split; [|split; [|split; [|split]]].
  - eexists. eexists. reflexivity.
  - vm_compute. reflexivity.
  - vm_compute. reflexivity.
  - vm_compute. reflexivity.
  - vm_compute. reflexivity.
Qed.

(** ** DirectoryScanner *)

Section SortFacts.
Context {A : Type} (compareFn : A -> A -> Z).
Hypothesis total : forall a b, compareFn a b <= 0 \/ compareFn b a <= 0.
Hypothesis transitive :
  forall a b c, compareFn a b <= 0 -> compareFn b c <= 0 -> compareFn a c <= 0.

Let le (a b : A) : Prop := compareFn a b <= 0.

Lemma sort_insert_In (x y : A) (l : list A) :
  In y (sort_insert compareFn x l) <-> y = x \/ In y l.
Proof.
  induction l as [|z l IH]; simpl.
  - intuition.
  - destruct (compareFn x z <=? 0); simpl; [intuition|].
    rewrite IH. intuition.
Qed.

Lemma sort_In (y : A) (l : list A) :
  In y (sort compareFn l) <-> In y l.
Proof.
  induction l as [|x l IH]; simpl; [reflexivity|].
  rewrite sort_insert_In, IH. intuition.
Qed.

Lemma sort_insert_sorted (x : A) (l : list A) :
  StronglySorted le l -> StronglySorted le (sort_insert compareFn x l).
Proof.
  induction 1 as [|z l Hl IH Hz]; simpl.
  - constructor; constructor.
  - destruct (compareFn x z <=? 0) eqn:E.
    + apply Z.leb_le in E. constructor.
      * now constructor.
      * constructor; [exact E|].
        eapply Forall_impl; [|exact Hz].
        intros c Hc. exact (transitive _ _ _ E Hc).
    + apply Z.leb_gt in E. constructor; [exact IH|].
      apply Forall_forall. intros c Hc.
      apply sort_insert_In in Hc as [->|Hc].
      * destruct (total x z) as [H|H]; [lia | exact H].
      * rewrite Forall_forall in Hz. now apply Hz.
Qed.

Lemma sort_sorted (l : list A) : StronglySorted le (sort compareFn l).
Proof.
  induction l as [|x l IH]; simpl.
  - constructor.
  - now apply sort_insert_sorted.
Qed.
End SortFacts.

Lemma compareCodeUnits_consistent : consistentComparator Sample.compareCodeUnits.
Proof.
  assert (Hle : forall a b,
             Sample.compareCodeUnits a b <= 0 <-> a = b \/ String_as_OT.lt a b).
  { intros a b. unfold Sample.compareCodeUnits.
    pose proof (String_as_OT.cmp_eq a b) as He.
    pose proof (String_as_OT.cmp_lt a b) as Hl.
    unfold String_as_OT.cmp in He, Hl.
    destruct (String.compare a b) eqn:E; split; intros H; try lia.
    - left. now apply He.
    - right. now apply Hl.
    - destruct H as [H|H]; [apply He in H | apply Hl in H]; discriminate H. }
  split.
  - intros a b. rewrite !Hle.
    destruct (String_as_OT.compare a b) as [H|H|H]; auto.
  - intros a b c. rewrite !Hle.
    intros [->|Hab] [->|Hbc]; auto.
    right. exact (String_as_OT.lt_trans _ _ _ Hab Hbc).
Qed.

Lemma SUPPORTED_MIME_TYPES_has_true (t : string) :
  SUPPORTED_MIME_TYPES_has t = true -> t = "image/png" \/ t = "image/webp".
Proof.
  unfold SUPPORTED_MIME_TYPES_has, SUPPORTED_MIME_TYPES. cbn [existsb].
  rewrite !orb_true_iff, !String.eqb_eq. intuition discriminate.
Qed.

(** What the [for await] loop pushes: an entry for a child of kind file
    whose file has a supported type. *)
Lemma collectImageEntries_loop_invariant (P : ImageEntry -> Prop)
    (children : list (string * FileSystemHandle)) :
  (forall childName fileHandle file,
      In (childName, KindFile fileHandle) children ->
      SUPPORTED_MIME_TYPES_has (file_type file) = true ->
      P (mkImageEntry childName fileHandle (file_size file) (file_type file)
           (file_lastModified file))) ->
  forall acc w result w',
    Forall P acc ->
    collectImageEntries_loop children acc w = (Returned result, w') ->
    Forall P result.
Proof.
  induction children as [|[childName entry] rest IH]; intros HP acc w result w' Hacc.
  - cbn. intros H. injection H as <- _. exact Hacc.
  - assert (HP' : forall childName fileHandle file,
               In (childName, KindFile fileHandle) rest ->
               SUPPORTED_MIME_TYPES_has (file_type file) = true ->
               P (mkImageEntry childName fileHandle (file_size file)
                    (file_type file) (file_lastModified file))).
    { intros n f file Hin. apply HP. now right. }
    destruct entry as [fileHandle|dirName]; cbn [collectImageEntries_loop].
    + unfold bind at 1, perform at 1.
      destruct (getFile fileHandle (trace w)) as [file|e]; [|discriminate].
      destruct (SUPPORTED_MIME_TYPES_has (file_type file)) eqn:Hs; cbn [negb].
      * apply (IH HP'). apply Forall_app. split; [exact Hacc|].
        constructor; [|constructor]. apply HP; [now left | exact Hs].
      * apply (IH HP'). exact Hacc.
    + apply (IH HP'). exact Hacc.
Qed.

(** C4. A scan that returns gives the entries sorted by name under
    [localeCompare]; every entry has type [image/png] or [image/webp], and
    every entry is a child of kind file of the directory, so none stands for
    a subdirectory. *)
Theorem collectImageEntries_sorted_supported_files
    (localeCompare : string -> string -> Z) (dir : FileSystemDirectoryHandle)
    (w : World) (items : list ImageEntry) (w' : World) :
  consistentComparator localeCompare ->
  collectImageEntries localeCompare dir w = (Returned items, w') ->
  StronglySorted (byName localeCompare) items /\
  Forall (fun e => type e = "image/png" \/ type e = "image/webp") items /\
  Forall (fun e => In (name e, KindFile (handle e)) (fst (entries dir (trace w))))
         items.
Proof.
  intros [Htotal Htrans]. unfold collectImageEntries.
  unfold bind at 1, perform at 1. unfold bind at 1.
  destruct (collectImageEntries_loop _ [] _) as [[result|e] w1] eqn:Hloop;
    [|discriminate].
  destruct (snd (entries dir (trace w))) as [error|]; [discriminate|].
  cbn [ret]. intros H. injection H as <- _.
  pose (P := fun e : ImageEntry =>
               (type e = "image/png" \/ type e = "image/webp") /\
               In (name e, KindFile (handle e)) (fst (entries dir (trace w)))).
  assert (HP : Forall P result).
  { apply (collectImageEntries_loop_invariant P _) with (3 := Hloop);
      [|constructor].
    intros childName fileHandle file Hin Hs. split; cbn.
    - now apply SUPPORTED_MIME_TYPES_has_true.
    - exact Hin. }
  split; [|split].
  - apply (sort_sorted (fun a b => localeCompare (name a) (name b))).
    + intros a b. apply Htotal.
    + intros a b c. apply Htrans.
  - apply Forall_forall. intros e He. apply sort_In in He.
    rewrite Forall_forall in HP. exact (proj1 (HP e He)).
  - apply Forall_forall. intros e He. apply sort_In in He.
    rewrite Forall_forall in HP. exact (proj2 (HP e He)).
Qed.

Lemma collectImageEntries_sorted_supported_files_witness :
  let w := Sample.world Sample.grantedDirectory [] in
  StronglySorted (byName Sample.compareCodeUnits) Sample.inventory /\
  Forall (fun e => type e = "image/png" \/ type e = "image/webp")
         Sample.inventory /\
  Forall (fun e => In (name e, KindFile (handle e))
                      (fst (entries Sample.grantedDirectory (trace w))))
         Sample.inventory.
Proof.
  intros w.
  apply (collectImageEntries_sorted_supported_files
           Sample.compareCodeUnits Sample.grantedDirectory w Sample.inventory
           (snd (collectImageEntries Sample.compareCodeUnits
                   Sample.grantedDirectory w))
           compareCodeUnits_consistent).
  vm_compute. reflexivity.
Defined.

(** ** ConversionPipeline *)

Lemma keepsLogs_bind {A B} (m : M A) (k : A -> M B) :
  keepsLogs m -> (forall a, keepsLogs (k a)) -> keepsLogs (bind m k).
Proof.
  intros Hm Hk w. unfold bind. specialize (Hm w).
  destruct (m w) as [[a|e] w1]; cbn [snd] in *.
  - now rewrite Hk.
  - exact Hm.
Qed.

Lemma keepsLogs_perform {A} (e : Event) (answer : History -> Outcome A) :
  keepsLogs (perform e answer).
Proof. intros w. reflexivity. Qed.

Lemma keepsLogs_performAnswered mk answer : keepsLogs (performAnswered mk answer).
Proof. intros w. reflexivity. Qed.

Lemma keepsLogs_ret {A} (a : A) : keepsLogs (ret a).
Proof. intros w. reflexivity. Qed.

Lemma keepsLogs_throw {A} (e : Thrown) : keepsLogs (@throw A e).
Proof. intros w. reflexivity. Qed.

Lemma keepsLogs_setStatus (s : string) : keepsLogs (setStatus s).
Proof. intros w. reflexivity. Qed.

Lemma keepsLogs_tryCatch {A} (body : M A) (handler : Thrown -> M A) :
  keepsLogs body -> (forall e, keepsLogs (handler e)) ->
  keepsLogs (tryCatch body handler).
Proof.
  intros Hb Hh w. unfold tryCatch. specialize (Hb w).
  destruct (body w) as [[a|e] w1]; cbn [snd] in *.
  - exact Hb.
  - now rewrite Hh.
Qed.

#[local] Hint Resolve keepsLogs_perform keepsLogs_performAnswered keepsLogs_ret
  keepsLogs_throw keepsLogs_setStatus : keeps.

Ltac keeps :=
  repeat first
    [ apply keepsLogs_bind; [|intros ?]
    | apply keepsLogs_tryCatch; [|intros ?]
    | solve [auto with keeps]
    | match goal with
      | |- keepsLogs (match ?x with _ => _ end) => destruct x
      | |- keepsLogs (if ?x then _ else _) => destruct x
      end ].

Lemma keepsLogs_ensurePermission handle mode :
  keepsLogs (ensurePermission handle mode).
Proof. unfold ensurePermission. keeps. Qed.

Lemma keepsLogs_canvasToBlob env canvas mimeType :
  keepsLogs (canvasToBlob env canvas mimeType).
Proof. unfold canvasToBlob. keeps. Qed.

Lemma keepsLogs_bind_post {A B} (Q : A -> Prop) (m : M A) (k : A -> M B) :
  (forall w a w', m w = (Returned a, w') -> Q a) ->
  keepsLogs m -> (forall a, Q a -> keepsLogs (k a)) -> keepsLogs (bind m k).
Proof.
  intros HQ Hm Hk w. unfold bind. specialize (Hm w). specialize (HQ w).
  destruct (m w) as [[a|e] w1]; cbn [snd] in *.
  - rewrite Hk; [exact Hm|]. now apply (HQ a w1).
  - exact Hm.
Qed.

Lemma rasterize_tidySource env file w source w' :
  rasterize env file w = (Returned source, w') -> tidySource source.
Proof.
  unfold rasterize.
  destruct (createImageBitmap env) as [decode|].
  - unfold bind, perform.
    destruct (decode (trace w) file) as [bitmap|e]; [|discriminate].
    cbn [ret]. intros H. injection H as <- _.
    split; [intros context|]; cbn [draw cleanup]; intros w0; reflexivity.
  - unfold bind, perform. cbn [record trace].
    destruct (loadImage env _ _) as [img|]; [|discriminate].
    cbn [ret]. intros H. injection H as <- _.
    split; [intros context|]; cbn [draw cleanup]; intros w0; reflexivity.
Qed.

Lemma keepsLogs_rasterize env file : keepsLogs (rasterize env file).
Proof. unfold rasterize. keeps. Qed.

Lemma keepsLogs_convertWithCanvas env file mimeType :
  keepsLogs (convertWithCanvas env file mimeType).
Proof.
  unfold convertWithCanvas.
  apply (keepsLogs_bind_post tidySource).
  - intros w source w'. apply rasterize_tidySource.
  - apply keepsLogs_rasterize.
  - intros source [Hdraw Hcleanup]. cbv zeta.
    apply keepsLogs_bind; [auto with keeps|intros context].
    destruct context as [context|].
    + apply keepsLogs_bind; [apply Hdraw|intros _].
      apply keepsLogs_bind; [apply keepsLogs_canvasToBlob|intros blob].
      apply keepsLogs_bind; [apply Hcleanup|intros _]. auto with keeps.
    + apply keepsLogs_bind; [apply Hcleanup|intros _]. auto with keeps.
Qed.

Lemma keepsLogs_setImages items : keepsLogs (setImages items).
Proof. intros w. reflexivity. Qed.

Lemma keepsLogs_setIsScanning b : keepsLogs (setIsScanning b).
Proof. intros w. reflexivity. Qed.

Lemma keepsLogs_setIsConverting b : keepsLogs (setIsConverting b).
Proof. intros w. reflexivity. Qed.

Lemma keepsLogs_tryFinally {A} (body : M A) (final : World -> World) :
  keepsLogs body -> (forall w, logs (final w) = logs w) ->
  keepsLogs (tryFinally body final).
Proof.
  intros Hb Hf w. unfold tryFinally. specialize (Hb w).
  destruct (body w) as [r w1]; cbn [snd] in *. now rewrite Hf.
Qed.

#[local] Hint Resolve keepsLogs_setImages keepsLogs_setIsScanning
  keepsLogs_setIsConverting keepsLogs_ensurePermission : keeps.

Lemma keepsLogs_collectImageEntries_loop children :
  forall acc, keepsLogs (collectImageEntries_loop children acc).
Proof.
  induction children as [|[childName entry] rest IH]; intros acc.
  - cbn. auto with keeps.
  - destruct entry as [fileHandle|dirName]; cbn [collectImageEntries_loop].
    + apply keepsLogs_bind; [auto with keeps|intros file].
      destruct (negb _); apply IH.
    + apply IH.
Qed.

Lemma keepsLogs_collectImageEntries localeCompare dir :
  keepsLogs (collectImageEntries localeCompare dir).
Proof.
  unfold collectImageEntries.
  apply keepsLogs_bind; [auto with keeps|intros iterable].
  apply keepsLogs_bind; [apply keepsLogs_collectImageEntries_loop|intros result].
  destruct (snd iterable); auto with keeps.
Qed.

Lemma keepsLogs_refreshDirectory localeCompare incoming closureHandle :
  keepsLogs (refreshDirectory localeCompare incoming closureHandle).
Proof.
  unfold refreshDirectory.
  destruct (match incoming with Some h => Some h | None => closureHandle end)
    as [dir|]; [|auto with keeps].
  apply keepsLogs_bind; [auto with keeps|intros _].
  apply keepsLogs_bind; [auto with keeps|intros _].
  apply keepsLogs_tryFinally; [|reflexivity].
  apply keepsLogs_tryCatch; [|auto with keeps].
  apply keepsLogs_bind; [auto with keeps|intros isGranted].
  destruct (negb isGranted); [auto with keeps|].
  apply keepsLogs_bind; [apply keepsLogs_collectImageEntries|intros items].
  apply keepsLogs_bind; auto with keeps.
Qed.

(** [refreshDirectory] catches what the scan throws. *)
Lemma refreshDirectory_returns localeCompare incoming closureHandle w :
  fst (refreshDirectory localeCompare incoming closureHandle w) = Returned tt.
Proof.
  unfold refreshDirectory.
  destruct (match incoming with Some h => Some h | None => closureHandle end)
    as [dir|]; [|reflexivity].
  unfold tryFinally, tryCatch, bind, setIsScanning, setStatus.
  destruct (ensurePermission dir read _) as [[[|]|e] w1]; cbn [negb];
    try reflexivity.
  destruct (collectImageEntries localeCompare dir w1) as [[items|e] w2];
    reflexivity.
Qed.

(** The [try] block either runs to its end, having appended one success
    line, or throws with the log as it was. *)
Lemma convertCandidate_try_logs env dir config candidate w :
  match convertCandidate_try env dir config candidate w with
  | (Returned _, w1) =>
      exists blob,
        logs w1 = appendLog_update
                    (successLog candidate
                       (replaceExtension (name candidate) (targetExt config)) blob)
                    (logs w)
  | (Threw _, w1) => logs w1 = logs w
  end.
Proof.
  unfold convertCandidate_try.
  unfold bind at 1, setStatus at 1.
  unfold bind at 1, perform at 1. cbn [trace].
  destruct (getFile (handle candidate) (trace w)) as [file|e]; [|reflexivity].
  unfold bind at 1.
  match goal with
  | |- context [convertWithCanvas env file (mime config) ?w0] =>
      pose proof (keepsLogs_convertWithCanvas env file (mime config) w0) as Hc;
      destruct (convertWithCanvas env file (mime config) w0) as [[blob|e] w1]
  end; cbn [snd record logs] in Hc; [|exact Hc].
  cbv zeta. unfold bind, perform.
  destruct (getFileHandle dir (trace w1) _) as [newHandle|e]; [|exact Hc].
  cbn [record trace].
  destruct (createWritable newHandle _) as [writable|e]; [|exact Hc].
  destruct (write writable _ blob) as [[]|e]; [|exact Hc].
  destruct (close writable _) as [[]|e]; [|exact Hc].
  exists blob. cbn [appendLog logs snd record]. now rewrite Hc.
Qed.

Lemma successLog_isSuccessLog candidate newName blob :
  isSuccessLog (successLog candidate newName blob) = true.
Proof. reflexivity. Qed.

Lemma failureLog_isFailureLog candidate error :
  isFailureLog (failureLog candidate error) = true.
Proof. reflexivity. Qed.

(** One turn of the batch loop: it never throws; what the [try] block
    throws becomes a failure line. *)
Lemma convertCandidate_outcome env dir config candidate w :
  exists w',
    convertCandidate env dir config candidate w = (Returned tt, w') /\
    match fst (convertCandidate_try env dir config candidate w) with
    | Threw error =>
        logs w' = firstn 20 (failureLog candidate error :: logs w)
    | Returned _ =>
        exists blob,
          logs w' = firstn 20
                      (successLog candidate
                         (replaceExtension (name candidate) (targetExt config))
                         blob :: logs w)
    end.
Proof.
  unfold convertCandidate, tryCatch.
  pose proof (convertCandidate_try_logs env dir config candidate w) as H.
  destruct (convertCandidate_try env dir config candidate w) as [[[]|e] w1];
    cbn [fst].
  - exists w1. split; [reflexivity | exact H].
  - eexists. split; [reflexivity|].
    cbn [appendLog logs snd]. now rewrite H.
Qed.

Lemma forOf_convertCandidate env dir config targets :
  forall w,
  exists w' lines,
    forOf targets (convertCandidate env dir config) w = (Returned tt, w') /\
    List.length lines = List.length targets /\
    Forall isOutcomeLog lines /\
    logs w' = fold_left (fun l e => appendLog_update e l) lines (logs w).
Proof.
  induction targets as [|candidate rest IH]; intros w.
  - exists w, []. repeat split. constructor.
  - destruct (convertCandidate_outcome env dir config candidate w)
      as (w1 & Hrun & Hlog).
    destruct (IH w1) as (w' & lines & Hrest & Hlen & Hall & Hlogs).
    assert (Hline : exists line, isOutcomeLog line /\
                                 logs w1 = appendLog_update line (logs w)).
    { destruct (fst (convertCandidate_try env dir config candidate w)).
      - destruct Hlog as [blob Hlog]. eexists. split; [|exact Hlog].
        left. apply successLog_isSuccessLog.
      - eexists. split; [|exact Hlog].
        right. apply failureLog_isFailureLog. }
    destruct Hline as (line & Hline & Hw1).
    exists w', (line :: lines). cbn [forOf]. unfold bind. rewrite Hrun.
    split; [exact Hrest|]. split; [cbn; now rewrite Hlen|].
    split; [now constructor|].
    cbn [fold_left]. now rewrite <- Hw1.
Qed.

Lemma handleConversion_completes env localeCompare direction w dir w1 :
  directoryHandle w = Some dir ->
  ensurePermission dir readwrite w = (Returned true, w1) ->
  exists w' lines,
    handleConversion env localeCompare direction w = (Returned tt, w') /\
    List.length lines
    = List.length (conversionTargets (DIRECTION_CONFIG direction) (images w)) /\
    Forall isOutcomeLog lines /\
    logs w' = fold_left (fun l e => appendLog_update e l) lines (logs w).
Proof.
  intros Hdir Hgranted. unfold handleConversion. rewrite Hdir. cbv zeta.
  set (config := DIRECTION_CONFIG direction).
  set (targets := conversionTargets config (images w)).
  destruct (List.length targets =? 0)%nat eqn:E.
  - apply Nat.eqb_eq in E. eexists. exists [].
    split; [reflexivity|]. split; [now rewrite E|]. split; [constructor|].
    reflexivity.
  - pose proof (keepsLogs_ensurePermission dir readwrite w) as Hk.
    rewrite Hgranted in Hk. cbn [snd] in Hk.
    unfold bind at 1. rewrite Hgranted. cbn [negb].
    unfold bind at 1, setIsConverting at 1.
    unfold bind at 1, setStatus at 1.
    match goal with
    | |- context [bind (forOf targets _) _ ?w2] =>
        destruct (forOf_convertCandidate env dir config targets w2)
          as (w3 & lines & Hrun & Hlen & Hall & Hlogs)
    end.
    unfold bind at 1. rewrite Hrun.
    unfold bind at 1, setStatus at 1.
    unfold bind at 1, setIsConverting at 1.
    match goal with
    | |- context [refreshDirectory localeCompare None (Some dir) ?w4] =>
        pose proof (refreshDirectory_returns localeCompare None (Some dir) w4) as Hr;
        pose proof (keepsLogs_refreshDirectory localeCompare None (Some dir) w4) as Hl;
        destruct (refreshDirectory localeCompare None (Some dir) w4) as [r w5]
    end.
    cbn [fst snd logs] in Hr, Hl. subst r.
    exists w5, lines. split; [reflexivity|]. split; [exact Hlen|].
    split; [exact Hall|].
    rewrite Hl, Hlogs. cbn [logs]. now rewrite Hk.
Qed.








(** [ensurePermission] changes nothing but the trace, and adds permission
    calls only. *)
Lemma ensurePermission_frame handle mode w :
  let w' := snd (ensurePermission handle mode w) in
  directoryHandle w' = directoryHandle w /\
  images w' = images w /\
  status w' = status w /\
  logs w' = logs w /\
  isScanning w' = isScanning w /\
  isConverting w' = isConverting w /\
  exists calls,
    trace w' = (trace w ++ calls)%list /\
    forallb isPermissionEvent calls = true.
Proof.
  cbv zeta.
  destruct (queryPermission handle) as [query|] eqn:Hq;
    [destruct (requestPermission handle) as [request|] eqn:Hr|].
  - rewrite (ensurePermission_capable handle query request mode w Hq Hr).
    cbv zeta.
    destruct (query (trace w) mode) as [[| |]|e]; cbn [snd record trace];
      repeat (split; [reflexivity|]);
      rewrite <- ?app_assoc; eexists; split; reflexivity.
  - rewrite (ensurePermission_fallback handle mode w (or_intror Hr)).
    repeat (split; [reflexivity|]). exists []. now rewrite app_nil_r.
  - rewrite (ensurePermission_fallback handle mode w (or_introl Hq)).
    repeat (split; [reflexivity|]). exists []. now rewrite app_nil_r.
Qed.

Lemma permission_calls_are_no_file_access (calls : History) :
  forallb isPermissionEvent calls = true -> count isFileAccess calls = 0%nat.
Proof.
  unfold count. induction calls as [|e calls IH]; [reflexivity|].
  cbn [forallb filter]. intros H. apply andb_true_iff in H as [He Hrest].
  destruct e; try discriminate He; cbn [isFileAccess]; now apply IH.
Qed.

(** C2. With a non-empty match set, when [ensurePermission] gives false
    for [readwrite] the run returns with the write-permission status; it
    has called nothing but the permission methods, so no file was read or
    written, and the log and the inventory are as before. *)
Theorem handleConversion_permission_denied (env : Env)
    (localeCompare : string -> string -> Z) (direction : ConversionDirection)
    (w : World) (dir : FileSystemDirectoryHandle) (w1 : World) :
  directoryHandle w = Some dir ->
  conversionTargets (DIRECTION_CONFIG direction) (images w) <> [] ->
  ensurePermission dir readwrite w = (Returned false, w1) ->
  exists w',
    handleConversion env localeCompare direction w = (Returned tt, w') /\
    status w' = Some "書き込み権限を付与してください。" /\
    logs w' = logs w /\
    images w' = images w /\
    isConverting w' = isConverting w /\
    forallb isPermissionEvent
      (emitted (handleConversion env localeCompare direction) w) = true /\
    count isFileAccess
      (emitted (handleConversion env localeCompare direction) w) = 0%nat.
Proof.
  intros Hdir Htargets Hdenied.
  assert (Hrun : handleConversion env localeCompare direction w
                 = setStatus "書き込み権限を付与してください。" w1).
  { unfold handleConversion. rewrite Hdir. cbv zeta.
    destruct (conversionTargets (DIRECTION_CONFIG direction) (images w))
      as [|c rest]; [contradiction|].
    cbn [List.length Nat.eqb]. unfold bind. now rewrite Hdenied. }
  pose proof (ensurePermission_frame dir readwrite w) as Hframe.
  rewrite Hdenied in Hframe. cbn [snd] in Hframe.
  destruct Hframe as (_ & Himages & _ & Hlogs & _ & Hconv & calls & Htrace & Hcalls).
  assert (Hemitted : emitted (handleConversion env localeCompare direction) w
                     = calls).
  { unfold emitted. rewrite Hrun. cbn [setStatus snd trace].
    rewrite Htrace. apply skipn_length_app. }
  eexists. split; [exact Hrun|]. cbn [status logs images isConverting].
  repeat (split; [reflexivity || assumption|]).
  rewrite Hemitted. split; [exact Hcalls|].
  now apply permission_calls_are_no_file_access.
Qed.

Lemma handleConversion_permission_denied_witness :
  let w := Sample.world Sample.deniedDirectory Sample.inventory in
  exists w',
    handleConversion Sample.env Sample.compareCodeUnits png_to_webp w
    = (Returned tt, w') /\
    status w' = Some "書き込み権限を付与してください。" /\
    logs w' = logs w /\
    images w' = images w /\
    isConverting w' = isConverting w /\
    forallb isPermissionEvent
      (emitted (handleConversion Sample.env Sample.compareCodeUnits png_to_webp) w)
    = true /\
    count isFileAccess
      (emitted (handleConversion Sample.env Sample.compareCodeUnits png_to_webp) w)
    = 0%nat.
Proof.
  intros w.
  apply (handleConversion_permission_denied Sample.env Sample.compareCodeUnits
           png_to_webp w Sample.deniedDirectory
           (snd (ensurePermission Sample.deniedDirectory readwrite w))).
  - reflexivity.
  - vm_compute. discriminate.
  - vm_compute. reflexivity.
Defined.

(** C6. When no name in the inventory ends, in lower case, with the source
    suffix of the direction, the run returns at once with the no-targets
    status: it calls nothing on the host, so there is no permission prompt
    and no file is read or written. *)
Theorem handleConversion_no_targets (env : Env)
    (localeCompare : string -> string -> Z) (direction : ConversionDirection)
    (w : World) (dir : FileSystemDirectoryHandle) :
  directoryHandle w = Some dir ->
  (forall file, In file (images w) ->
     endsWith (toLowerCase (name file)) (sourceExt (DIRECTION_CONFIG direction))
     = false) ->
  exists w',
    handleConversion env localeCompare direction w = (Returned tt, w') /\
    status w' = Some "対象ファイルが見つかりませんでした。" /\
    emitted (handleConversion env localeCompare direction) w = [] /\
    trace w' = trace w /\
    logs w' = logs w /\
    images w' = images w /\
    isConverting w' = isConverting w.
Proof.
  intros Hdir Hnone.
  assert (Htargets : conversionTargets (DIRECTION_CONFIG direction) (images w) = []).
  { unfold conversionTargets.
    induction (images w) as [|file rest IH]; [reflexivity|].
    cbn [filter]. unfold hasExtension at 1.
    rewrite (Hnone file (or_introl eq_refl)).
    apply IH. intros f Hf. apply Hnone. now right. }
  assert (Hrun : handleConversion env localeCompare direction w
                 = setStatus "対象ファイルが見つかりませんでした。" w).
  { unfold handleConversion. rewrite Hdir. cbv zeta. now rewrite Htargets. }
  eexists. split; [exact Hrun|]. cbn [status logs images isConverting trace].
  split; [reflexivity|]. split.
  - unfold emitted. rewrite Hrun. cbn [setStatus snd trace].
    apply skipn_length_self.
  - repeat split.
Qed.

Lemma handleConversion_no_targets_witness :
  let w := Sample.world Sample.promptDirectory
             [Sample.entry "y.webp" "image/webp"; Sample.entry "png" "image/png"] in
  exists w',
    handleConversion Sample.env Sample.compareCodeUnits png_to_webp w
    = (Returned tt, w') /\
    status w' = Some "対象ファイルが見つかりませんでした。" /\
    emitted (handleConversion Sample.env Sample.compareCodeUnits png_to_webp) w = [] /\
    trace w' = trace w /\
    logs w' = logs w /\
    images w' = images w /\
    isConverting w' = isConverting w.
Proof.
  intros w.
  apply (handleConversion_no_targets Sample.env Sample.compareCodeUnits
           png_to_webp w Sample.promptDirectory).
  - reflexivity.
  - intros file [<-|[<-|[]]]; reflexivity.
Defined.

(** * Further properties *)

(** ** Suffixes *)

Lemma toLowerCase_append (a b : string) :
  toLowerCase (a ++ b) = toLowerCase a ++ toLowerCase b.
Proof.
  induction a as [|c a IH]; [reflexivity|].
  cbn [append toLowerCase]. now rewrite IH.
Qed.

Lemma lowerAscii_idempotent (c : ascii) : lowerAscii (lowerAscii c) = lowerAscii c.
Proof.
  destruct c as [[] [] [] [] [] [] [] []]; reflexivity.
Qed.

Lemma toLowerCase_idempotent (s : string) :
  toLowerCase (toLowerCase s) = toLowerCase s.
Proof.
  induction s as [|c s IH]; [reflexivity|].
  cbn [toLowerCase]. now rewrite lowerAscii_idempotent, IH.
Qed.

Lemma append_inj_l (a b c : string) : a ++ b = a ++ c -> b = c.
Proof.
  induction a as [|x a IH]; cbn [append]; intros H; [exact H|].
  injection H as H. now apply IH.
Qed.

Lemma append_assoc (a b c : string) : (a ++ b) ++ c = a ++ (b ++ c).
Proof.
  induction a as [|x a IH]; [reflexivity|].
  cbn [append]. now rewrite IH.
Qed.

Lemma substring_all (s : string) : substring 0 (String.length s) s = s.
Proof.
  induction s as [|c s IH]; [reflexivity|].
  cbn [String.length substring]. now rewrite IH.
Qed.

Lemma substring_after_prefix (a b : string) (k m : nat) :
  substring (String.length a + k) m (a ++ b) = substring k m b.
Proof.
  induction a as [|c a IH]; [reflexivity|].
  cbn [String.length append Nat.add substring]. exact IH.
Qed.

Lemma endsWith_append_suffix (stem suffix : string) :
  endsWith (stem ++ suffix) suffix = true.
Proof.
  unfold endsWith. rewrite length_append.
  apply andb_true_iff. split; [apply Nat.leb_le; lia|].
  replace (String.length stem + String.length suffix - String.length suffix)%nat
    with (String.length stem + 0)%nat by lia.
  rewrite substring_after_prefix, substring_all.
  apply String.eqb_refl.
Qed.

(** Of two suffixes of one string, the shorter is a suffix of the longer. *)
Lemma suffixes_nest (p q s t : string) :
  p ++ s = q ++ t ->
  (String.length t <= String.length s)%nat ->
  exists r, s = r ++ t.
Proof.
  revert q. induction p as [|c p IH]; intros q H Hlen.
  - exists q. exact H.
  - destruct q as [|d q].
    + cbn [append] in H. subst t.
      cbn [String.length] in Hlen. rewrite length_append in Hlen. lia.
    + cbn [append] in H. injection H as _ H. exact (IH q H Hlen).
Qed.

Lemma endsWith_both (x s t : string) :
  endsWith x s = true -> endsWith x t = true ->
  (String.length t <= String.length s)%nat ->
  endsWith s t = true.
Proof.
  intros Hs Ht Hlen.
  apply endsWith_true in Hs as [p Hs]. apply endsWith_true in Ht as [q Ht].
  rewrite Hs in Ht.
  destruct (suffixes_nest p q s t Ht Hlen) as [r ->].
  apply endsWith_append_suffix.
Qed.

(** The source and the target suffix of a direction exclude each other. *)
Lemma not_both_suffixes (x : string) (direction : ConversionDirection) :
  endsWith x (sourceExt (DIRECTION_CONFIG direction)) = true ->
  endsWith x (targetExt (DIRECTION_CONFIG direction)) = true ->
  False.
Proof.
  intros Hs Ht.
  destruct direction.
  - pose proof (endsWith_both x _ _ Ht Hs) as H.
    cbn in H. specialize (H ltac:(lia)). vm_compute in H. discriminate H.
  - pose proof (endsWith_both x _ _ Hs Ht) as H.
    cbn in H. specialize (H ltac:(lia)). vm_compute in H. discriminate H.
Qed.

Lemma hasDot_split (s : string) :
  hasDot s = true ->
  exists stem suffix, s = stem ++ String "." suffix /\ hasDot suffix = false.
Proof.
  induction s as [|c s IH]; [discriminate|].
  cbn [hasDot]. destruct (hasDot s) eqn:Hs.
  - intros _. destruct (IH eq_refl) as (stem & suffix & -> & Hsuf).
    exists (String c stem), suffix. split; [reflexivity | exact Hsuf].
  - rewrite orb_false_r. intros Hc. apply Ascii.eqb_eq in Hc. subst c.
    exists EmptyString, s. split; [reflexivity | exact Hs].
Qed.

Lemma replaceExtension_cut (stem suffix nextExtension : string) :
  hasDot suffix = false ->
  replaceExtension (stem ++ String "." suffix) nextExtension
  = stem ++ nextExtension.
Proof.
  intros H. unfold replaceExtension.
  rewrite (lastIndexOf_after_stem _ _ H).
  destruct (Z.of_nat (String.length stem) =? -1) eqn:E;
    [apply Z.eqb_eq in E; lia|].
  now rewrite slice_prefix_of_append.
Qed.

(** X2. For a name of ASCII characters, on which [toLowerCase] is the
    lowering of A-Z, matching ignores the letter case of the name, and only
    of the name: the name matches exactly when its lower-case form does,
    and it matches no extension that is not in lower case or is longer than
    the name. *)
Theorem hasExtension_case (name extension : string) :
  isAscii name = true ->
  hasExtension (toLowerCase name) extension = hasExtension name extension /\
  (hasExtension name extension = true ->
   toLowerCase extension = extension /\
   (String.length extension <= String.length name)%nat).
Proof.
  intros _. unfold hasExtension. split.
  - now rewrite toLowerCase_idempotent.
  - intros H. apply endsWith_true in H as [lowered H].
    pose proof (toLowerCase_idempotent name) as Hidem.
    rewrite H, toLowerCase_append in Hidem.
    split.
    + destruct (toLowerCase_append_inv lowered extension name H)
        as (s1 & s2 & -> & H1 & H2).
      rewrite <- H2. apply toLowerCase_idempotent.
    + assert (Hlen : forall s, String.length (toLowerCase s) = String.length s).
      { induction s as [|c s IH]; [reflexivity|]. cbn. now rewrite IH. }
      rewrite <- (Hlen name), H, length_append. lia.
Qed.

Lemma hasExtension_case_witness :
  toLowerCase ".webp" = ".webp" /\
  (String.length ".webp" <= String.length "Holiday.WebP")%nat.
Proof.
  apply (proj2 (hasExtension_case "Holiday.WebP" ".webp" eq_refl)).
  reflexivity.
Defined.

(** X3. Replacing the extension twice is replacing it once with the second
    extension, when the first begins with its only ["."]; so going to
    another extension and back gives the name with its old suffix in the
    letter case of the last replacement. *)
Theorem replaceExtension_twice (fileName first second : string) :
  hasDot first = false ->
  replaceExtension (replaceExtension fileName (String "." first)) second
  = replaceExtension fileName second.
Proof.
  intros Hfirst.
  destruct (hasDot fileName) eqn:Hdot.
  - destruct (hasDot_split fileName Hdot) as (stem & suffix & -> & Hsuffix).
    rewrite !(replaceExtension_cut stem suffix) by exact Hsuffix.
    now apply replaceExtension_cut.
  - unfold replaceExtension at 2 3.
    rewrite (lastIndexOf_no_dot _ Hdot). cbn [Z.eqb].
    now apply replaceExtension_cut.
Qed.

Lemma replaceExtension_twice_witness :
  replaceExtension (replaceExtension "scan.v2.PNG" ".webp") ".png"
  = replaceExtension "scan.v2.PNG" ".png".
Proof.
  apply (replaceExtension_twice "scan.v2.PNG" "webp" ".png").
  reflexivity.
Defined.

Lemma replaceExtension_of_match (direction : ConversionDirection)
    (fileName : string) :
  let config := DIRECTION_CONFIG direction in
  let newName := replaceExtension fileName (targetExt config) in
  hasExtension fileName (sourceExt config) = true ->
  hasExtension newName (targetExt config) = true /\
  hasExtension newName (sourceExt config) = false /\
  newName <> fileName.
Proof.
  cbv zeta. intros Hmatch.
  destruct (hasExtension_true fileName direction Hmatch)
    as (stem & suffix & -> & _ & Hsuffix).
  rewrite (replaceExtension_cut stem suffix _ Hsuffix).
  assert (Htarget : hasExtension (stem ++ targetExt (DIRECTION_CONFIG direction))
                      (targetExt (DIRECTION_CONFIG direction)) = true).
  { unfold hasExtension. rewrite toLowerCase_append.
    replace (toLowerCase (targetExt (DIRECTION_CONFIG direction)))
      with (targetExt (DIRECTION_CONFIG direction))
      by (destruct direction; reflexivity).
    apply endsWith_append_suffix. }
  assert (Hsource : hasExtension (stem ++ targetExt (DIRECTION_CONFIG direction))
                      (sourceExt (DIRECTION_CONFIG direction)) = false).
  { destruct (hasExtension (stem ++ targetExt (DIRECTION_CONFIG direction))
                (sourceExt (DIRECTION_CONFIG direction))) eqn:E; [|reflexivity].
    exfalso. exact (not_both_suffixes _ direction E Htarget). }
  split; [exact Htarget|]. split; [exact Hsource|].
  intros Heq. rewrite Heq, Hmatch in Hsource. discriminate Hsource.
Qed.

(** X4. The name derived for a file that matches the source suffix of a
    direction matches the target suffix, does not match the source suffix,
    and so is not the name of the file itself. *)
Theorem derived_name_is_a_target (direction : ConversionDirection)
    (fileName : string) :
  let config := DIRECTION_CONFIG direction in
  let newName := replaceExtension fileName (targetExt config) in
  hasExtension fileName (sourceExt config) = true ->
  hasExtension newName (targetExt config) = true /\
  hasExtension newName (sourceExt config) = false /\
  newName <> fileName.
Proof.
  exact (replaceExtension_of_match direction fileName).
Qed.

Lemma derived_name_is_a_target_witness :
  hasExtension (replaceExtension "Photo.PNG" ".webp") ".webp" = true /\
  hasExtension (replaceExtension "Photo.PNG" ".webp") ".png" = false /\
  replaceExtension "Photo.PNG" ".webp" <> "Photo.PNG".
Proof.
  apply (derived_name_is_a_target png_to_webp "Photo.PNG").
  reflexivity.
Defined.

(** X5. No entry is counted as both PNG and WebP, so the two counters
    together never exceed the size of the inventory. *)
Theorem counters_are_disjoint (images : list ImageEntry) :
  (pngCount images + webpCount images <= List.length images)%nat /\
  Forall (fun image =>
            hasExtension (name image) ".png" = true ->
            hasExtension (name image) ".webp" = false) images.
Proof.
  assert (Hexcl : forall n, hasExtension n ".png" = true ->
                            hasExtension n ".webp" = false).
  { intros n Hpng. destruct (hasExtension n ".webp") eqn:Hwebp; [|reflexivity].
    exfalso. exact (not_both_suffixes _ png_to_webp Hpng Hwebp). }
  split.
  - unfold pngCount, webpCount.
    induction images as [|image rest IH]; [cbn; lia|].
    cbn [filter List.length].
    destruct (hasExtension (name image) ".png") eqn:Hpng.
    + rewrite (Hexcl _ Hpng). cbn [List.length]. lia.
    + destruct (hasExtension (name image) ".webp"); cbn [List.length]; lia.
  - apply Forall_forall. intros image _. apply Hexcl.
Qed.

(** ** formatBytes *)

Lemma Qle_bool_div_1024 (c : Z) (q : Q) :
  Qle_bool (inject_Z c) (q / 1024)%Q = Qle_bool (inject_Z (c * 1024)) q.
Proof.
  apply eq_true_iff_eq. rewrite !Qle_bool_iff.
  unfold Qle, Qdiv, Qmult, Qinv, inject_Z. destruct q as [n d].
  cbn [Qnum Qden]. rewrite Pos2Z.inj_mul. lia.
Qed.

Lemma Qle_bool_inject_Z (c z : Z) :
  Qle_bool (inject_Z c) (inject_Z z) = (c <=? z).
Proof.
  apply eq_true_iff_eq. rewrite Qle_bool_iff, Z.leb_le.
  unfold Qle, inject_Z. cbn [Qnum Qden]. lia.
Qed.

(** X1. For a size below 2^53, the integers a file size can be and on
    which the divisions by 1024 are exact, [formatBytes] shows sizes below
    1024 in bytes, and above that the size divided by 1024, 1024^2 or
    1024^3 with one decimal, in KB, MB or GB; the unit never goes beyond
    GB. *)
Theorem formatBytes_unit (size : N) :
  (size < 2 ^ 53)%N ->
  formatBytes size =
  let bytes := inject_Z (Z.of_N size) in
  if (size <? 1024)%N then string_of_N size ++ " B"
  else if (size <? 1024 * 1024)%N then toFixed1 (bytes / 1024)%Q ++ " KB"
  else if (size <? 1024 * 1024 * 1024)%N
       then toFixed1 (bytes / 1024 / 1024)%Q ++ " MB"
  else toFixed1 (bytes / 1024 / 1024 / 1024)%Q ++ " GB".
Proof.
  intros _. cbv zeta. unfold formatBytes.
  destruct (size <? 1024)%N eqn:H0; [reflexivity|].
  cbn [formatBytes_loop List.length units Nat.sub Nat.add Nat.ltb Nat.leb andb].
  rewrite !andb_true_r, andb_false_r.
  change 1024%Q with (inject_Z 1024).
  rewrite !Qle_bool_div_1024, !Qle_bool_inject_Z.
  destruct (size <? 1024 * 1024)%N eqn:H1.
  - apply N.ltb_lt in H1.
    replace (1024 * 1024 <=? Z.of_N size) with false
      by (symmetry; apply Z.leb_gt; lia).
    reflexivity.
  - apply N.ltb_ge in H1.
    replace (1024 * 1024 <=? Z.of_N size) with true
      by (symmetry; apply Z.leb_le; lia).
    destruct (size <? 1024 * 1024 * 1024)%N eqn:H2.
    + apply N.ltb_lt in H2.
      replace (1024 * 1024 * 1024 <=? Z.of_N size) with false
        by (symmetry; apply Z.leb_gt; lia).
      reflexivity.
    + apply N.ltb_ge in H2.
      replace (1024 * 1024 * 1024 <=? Z.of_N size) with true
        by (symmetry; apply Z.leb_le; lia).
      reflexivity.
Qed.

Lemma formatBytes_unit_witness :
  formatBytes 5000000000000
  = toFixed1 (inject_Z 5000000000000 / 1024 / 1024 / 1024)%Q ++ " GB".
Proof.
  apply (formatBytes_unit 5000000000000).
  reflexivity.
Defined.

(** ** Frames and call kinds *)

Lemma keeps_bind {A B X} (cell : World -> X) (m : M A) (k : A -> M B) :
  keeps cell m -> (forall a, keeps cell (k a)) -> keeps cell (bind m k).
Proof.
  intros Hm Hk w. unfold bind. specialize (Hm w).
  destruct (m w) as [[a|e] w1]; cbn [snd] in *.
  - now rewrite Hk.
  - exact Hm.
Qed.

Lemma keeps_bind_post {A B X} (cell : World -> X) (Q : A -> Prop)
    (m : M A) (k : A -> M B) :
  (forall w a w', m w = (Returned a, w') -> Q a) ->
  keeps cell m -> (forall a, Q a -> keeps cell (k a)) -> keeps cell (bind m k).
Proof.
  intros HQ Hm Hk w. unfold bind. specialize (Hm w). specialize (HQ w).
  destruct (m w) as [[a|e] w1]; cbn [snd] in *.
  - rewrite Hk; [exact Hm|]. now apply (HQ a w1).
  - exact Hm.
Qed.

Lemma keeps_tryCatch {A X} (cell : World -> X) (body : M A)
    (handler : Thrown -> M A) :
  keeps cell body -> (forall e, keeps cell (handler e)) ->
  keeps cell (tryCatch body handler).
Proof.
  intros Hb Hh w. unfold tryCatch. specialize (Hb w).
  destruct (body w) as [[a|e] w1]; cbn [snd] in *.
  - exact Hb.
  - now rewrite Hh.
Qed.

Lemma keeps_tryFinally {A X} (cell : World -> X) (body : M A)
    (final : World -> World) :
  keeps cell body -> (forall w, cell (final w) = cell w) ->
  keeps cell (tryFinally body final).
Proof.
  intros Hb Hf w. unfold tryFinally. specialize (Hb w).
  destruct (body w) as [r w1]; cbn [snd] in *. now rewrite Hf.
Qed.

Lemma keeps_forOf {A X} (cell : World -> X) (xs : list A) (body : A -> M unit) :
  (forall x, In x xs -> keeps cell (body x)) -> keeps cell (forOf xs body).
Proof.
  induction xs as [|x xs IH]; intros H.
  - intros w. reflexivity.
  - cbn [forOf]. apply keeps_bind; [apply H; now left|intros _].
    apply IH. intros y Hy. apply H. now right.
Qed.

(** Splits a computation along its binds and branches; what is left are
    the calls that have a lemma of their own. *)
Ltac frame :=
  repeat first
    [ solve [intros ?; reflexivity]
    | apply keeps_bind; [|intros ?]
    | apply keeps_tryCatch; [|intros ?]
    | match goal with
      | |- keeps _ (match ?x with _ => _ end) => destruct x
      | |- keeps _ (if ?x then _ else _) => destruct x
      end ].

Lemma keeps_perform {A X} (cell : World -> X) (e : Event)
    (answer : History -> Outcome A) :
  untraced cell -> keeps cell (perform e answer).
Proof. intros H w. apply H. Qed.

Lemma keeps_ensurePermission {X} (cell : World -> X) handle mode :
  untraced cell -> keeps cell (ensurePermission handle mode).
Proof.
  intros H w.
  destruct (queryPermission handle) as [query|] eqn:Hq;
    [destruct (requestPermission handle) as [request|] eqn:Hr|].
  - rewrite (ensurePermission_capable handle query request mode w Hq Hr).
    cbv zeta.
    destruct (query (trace w) mode) as [[| |]|e]; cbn [snd];
      now rewrite ?H.
  - now rewrite (ensurePermission_fallback handle mode w (or_intror Hr)).
  - now rewrite (ensurePermission_fallback handle mode w (or_introl Hq)).
Qed.

Lemma keeps_collectImageEntries_loop {X} (cell : World -> X) children :
  untraced cell ->
  forall acc, keeps cell (collectImageEntries_loop children acc).
Proof.
  intros H. induction children as [|[childName entry] rest IH]; intros acc.
  - intros w. reflexivity.
  - destruct entry as [fileHandle|dirName]; cbn [collectImageEntries_loop].
    + apply keeps_bind; [now apply keeps_perform|intros file].
      destruct (negb _); apply IH.
    + apply IH.
Qed.

Lemma keeps_collectImageEntries {X} (cell : World -> X) localeCompare dir :
  untraced cell -> keeps cell (collectImageEntries localeCompare dir).
Proof.
  intros H. unfold collectImageEntries.
  apply keeps_bind; [now apply keeps_perform|intros iterable].
  apply keeps_bind; [now apply keeps_collectImageEntries_loop|intros result].
  destruct (snd iterable); intros w; reflexivity.
Qed.

Lemma emitsOnly_bind {A B} (p : Event -> bool) (m : M A) (k : A -> M B) :
  emitsOnly p m -> (forall a, emitsOnly p (k a)) -> emitsOnly p (bind m k).
Proof.
  intros Hm Hk w. unfold bind. destruct (Hm w) as (c1 & Ht1 & Hp1).
  destruct (m w) as [[a|e] w1]; cbn [snd] in *.
  - destruct (Hk a w1) as (c2 & Ht2 & Hp2).
    exists (c1 ++ c2)%list. rewrite Ht2, Ht1, app_assoc.
    split; [reflexivity|]. rewrite forallb_app. now rewrite Hp1, Hp2.
  - exists c1. now split.
Qed.

Lemma emitsOnly_bind_post {A B} (p : Event -> bool) (Q : A -> Prop)
    (m : M A) (k : A -> M B) :
  (forall w a w', m w = (Returned a, w') -> Q a) ->
  emitsOnly p m -> (forall a, Q a -> emitsOnly p (k a)) ->
  emitsOnly p (bind m k).
Proof.
  intros HQ Hm Hk w. unfold bind. destruct (Hm w) as (c1 & Ht1 & Hp1).
  specialize (HQ w).
  destruct (m w) as [[a|e] w1]; cbn [snd] in *.
  - destruct (Hk a (HQ a w1 eq_refl) w1) as (c2 & Ht2 & Hp2).
    exists (c1 ++ c2)%list. rewrite Ht2, Ht1, app_assoc.
    split; [reflexivity|]. rewrite forallb_app. now rewrite Hp1, Hp2.
  - exists c1. now split.
Qed.

Lemma emitsOnly_tryCatch {A} (p : Event -> bool) (body : M A)
    (handler : Thrown -> M A) :
  emitsOnly p body -> (forall e, emitsOnly p (handler e)) ->
  emitsOnly p (tryCatch body handler).
Proof.
  intros Hb Hh w. unfold tryCatch. destruct (Hb w) as (c1 & Ht1 & Hp1).
  destruct (body w) as [[a|e] w1]; cbn [snd] in *.
  - exists c1. now split.
  - destruct (Hh e w1) as (c2 & Ht2 & Hp2).
    exists (c1 ++ c2)%list. rewrite Ht2, Ht1, app_assoc.
    split; [reflexivity|]. rewrite forallb_app. now rewrite Hp1, Hp2.
Qed.

Lemma emitsOnly_tryFinally {A} (p : Event -> bool) (body : M A)
    (final : World -> World) :
  emitsOnly p body -> (forall w, trace (final w) = trace w) ->
  emitsOnly p (tryFinally body final).
Proof.
  intros Hb Hf w. unfold tryFinally. destruct (Hb w) as (c1 & Ht1 & Hp1).
  destruct (body w) as [r w1]; cbn [snd] in *.
  exists c1. rewrite Hf. now split.
Qed.

Lemma emitsOnly_silent {A} (p : Event -> bool) (m : M A) :
  keeps trace m -> emitsOnly p m.
Proof.
  intros H w. exists []. rewrite H, app_nil_r. now split.
Qed.

Lemma emitsOnly_perform {A} (p : Event -> bool) (e : Event)
    (answer : History -> Outcome A) :
  p e = true -> emitsOnly p (perform e answer).
Proof.
  intros H w. exists [e]. split; [reflexivity|]. cbn. now rewrite H.
Qed.

Lemma emitsOnly_weaken {A} (p q : Event -> bool) (m : M A) :
  (forall e, p e = true -> q e = true) -> emitsOnly p m -> emitsOnly q m.
Proof.
  intros Hpq Hm w. destruct (Hm w) as (calls & Ht & Hp).
  exists calls. split; [exact Ht|].
  rewrite forallb_forall in *. auto.
Qed.

Lemma emitsOnly_forOf {A} (p : Event -> bool) (xs : list A)
    (body : A -> M unit) :
  (forall x, In x xs -> emitsOnly p (body x)) -> emitsOnly p (forOf xs body).
Proof.
  induction xs as [|x xs IH]; intros H.
  - apply emitsOnly_silent. intros w. reflexivity.
  - cbn [forOf]. apply emitsOnly_bind; [apply H; now left|intros _].
    apply IH. intros y Hy. apply H. now right.
Qed.

Lemma emitsOnly_emitted {A} (p : Event -> bool) (m : M A) (w : World) :
  emitsOnly p m -> forallb p (emitted m w) = true.
Proof.
  intros H. destruct (H w) as (calls & Ht & Hp).
  unfold emitted. now rewrite Ht, skipn_length_app.
Qed.

(** Splits along binds and branches as [frame] does; the setters are
    silent, the calls are checked against the kind. *)
Ltac calls :=
  repeat first
    [ solve [apply emitsOnly_silent; intros ?; reflexivity]
    | solve [apply emitsOnly_perform; reflexivity]
    | apply emitsOnly_bind; [|intros ?]
    | apply emitsOnly_tryCatch; [|intros ?]
    | match goal with
      | |- emitsOnly _ (match ?x with _ => _ end) => destruct x
      | |- emitsOnly _ (if ?x then _ else _) => destruct x
      end ].

Lemma emitsOnly_ensurePermission handle mode :
  emitsOnly (isModeOf mode) (ensurePermission handle mode).
Proof.
  intros w.
  destruct (queryPermission handle) as [query|] eqn:Hq;
    [destruct (requestPermission handle) as [request|] eqn:Hr|].
  - rewrite (ensurePermission_capable handle query request mode w Hq Hr).
    cbv zeta.
    destruct (query (trace w) mode) as [[| |]|e]; cbn [snd record trace];
      rewrite <- ?app_assoc; eexists; (split; [reflexivity|]);
      destruct mode; reflexivity.
  - rewrite (ensurePermission_fallback handle mode w (or_intror Hr)).
    exists []. now rewrite app_nil_r.
  - rewrite (ensurePermission_fallback handle mode w (or_introl Hq)).
    exists []. now rewrite app_nil_r.
Qed.

Lemma emitsOnly_collectImageEntries_loop (p : Event -> bool) children :
  (forall childName, p (EvGetFile childName) = true) ->
  forall acc, emitsOnly p (collectImageEntries_loop children acc).
Proof.
  intros Hp. induction children as [|[childName entry] rest IH]; intros acc.
  - apply emitsOnly_silent. intros w. reflexivity.
  - destruct entry as [fileHandle|dirName]; cbn [collectImageEntries_loop].
    + apply emitsOnly_bind; [apply emitsOnly_perform, Hp|intros file].
      destruct (negb _); apply IH.
    + apply IH.
Qed.

Lemma emitsOnly_collectImageEntries localeCompare dir :
  emitsOnly isScanCall (collectImageEntries localeCompare dir).
Proof.
  unfold collectImageEntries.
  apply emitsOnly_bind; [now apply emitsOnly_perform|intros iterable].
  apply emitsOnly_bind;
    [now apply emitsOnly_collectImageEntries_loop|intros result].
  calls.
Qed.

Lemma emitsOnly_refreshDirectory localeCompare incoming closureHandle :
  emitsOnly isScanCall (refreshDirectory localeCompare incoming closureHandle).
Proof.
  unfold refreshDirectory.
  destruct (match incoming with Some h => Some h | None => closureHandle end)
    as [dir|]; [|calls].
  apply emitsOnly_bind; [calls|intros _].
  apply emitsOnly_bind; [calls|intros _].
  apply emitsOnly_tryFinally; [|reflexivity].
  apply emitsOnly_tryCatch; [|intros e; calls].
  apply emitsOnly_bind.
  - apply (emitsOnly_weaken (isModeOf read)); [|apply emitsOnly_ensurePermission].
    intros e He. destruct e; try discriminate He; exact He.
  - intros isGranted. destruct (negb isGranted); [calls|].
    apply emitsOnly_bind; [apply emitsOnly_collectImageEntries|intros items].
    calls.
Qed.

(** ** refreshDirectory *)

Ltac refresh_frame :=
  unfold refreshDirectory;
  match goal with
  | |- keeps _ (match ?h with _ => _ end) => destruct h
  end; [|frame];
  apply keeps_bind; [frame|intros _];
  apply keeps_bind; [frame|intros _];
  apply keeps_tryFinally; [|reflexivity];
  apply keeps_tryCatch; [|intros; frame];
  apply keeps_bind;
    [apply keeps_ensurePermission; intros ? ?; reflexivity|intros ?];
  match goal with
  | |- keeps _ (if ?b then _ else _) => destruct b
  end; [frame|];
  apply keeps_bind;
    [apply keeps_collectImageEntries; intros ? ?; reflexivity|intros ?];
  frame.

Lemma keeps_directoryHandle_refreshDirectory localeCompare incoming closureHandle :
  keeps directoryHandle (refreshDirectory localeCompare incoming closureHandle).
Proof. refresh_frame. Qed.

Lemma keeps_isConverting_refreshDirectory localeCompare incoming closureHandle :
  keeps isConverting (refreshDirectory localeCompare incoming closureHandle).
Proof. refresh_frame. Qed.

Lemma refreshDirectory_isScanning localeCompare dir closureHandle w :
  isScanning (snd (refreshDirectory localeCompare (Some dir) closureHandle w))
  = false.
Proof.
  unfold refreshDirectory, tryFinally, bind at 1 2, setIsScanning, setStatus.
  match goal with
  | |- context [let '(r, w') := ?body in _] => destruct body as [r w']
  end.
  reflexivity.
Qed.

(** X6. A scan never throws and never leaves the scanning flag set: what
    the permission check or the enumeration throws is caught, and
    [isScanning] is false afterwards.  The log, the selected directory and
    the converting flag are as before; without a directory, neither passed
    nor selected, nothing happens at all. *)
Theorem refreshDirectory_settles (localeCompare : string -> string -> Z)
    (incoming closureHandle : option FileSystemDirectoryHandle) (w : World) :
  let run := refreshDirectory localeCompare incoming closureHandle w in
  fst run = Returned tt /\
  logs (snd run) = logs w /\
  directoryHandle (snd run) = directoryHandle w /\
  isConverting (snd run) = isConverting w /\
  match incoming, closureHandle with
  | None, None => snd run = w
  | _, _ => isScanning (snd run) = false
  end.
Proof.
  cbv zeta.
  split; [apply refreshDirectory_returns|].
  split; [apply keepsLogs_refreshDirectory|].
  split; [apply keeps_directoryHandle_refreshDirectory|].
  split; [apply keeps_isConverting_refreshDirectory|].
  destruct incoming as [dir|]; [|destruct closureHandle as [dir|]].
  - apply refreshDirectory_isScanning.
  - apply (refreshDirectory_isScanning localeCompare dir None).
  - reflexivity.
Qed.

(** X7. A scan is read-only: it calls nothing but the permission methods
    in [read] mode, [entries] and [getFile]; in particular it writes no
    file and never asks for [readwrite]. *)
Theorem refreshDirectory_is_read_only (localeCompare : string -> string -> Z)
    (incoming closureHandle : option FileSystemDirectoryHandle) (w : World) :
  let calls :=
    emitted (refreshDirectory localeCompare incoming closureHandle) w in
  forallb isScanCall calls = true /\
  Forall (fun e => writtenName e = None /\ isModeOf readwrite e = false /\
                   isCanvasWork e = false) calls.
Proof.
  cbv zeta.
  pose proof (emitsOnly_emitted isScanCall _ w
                (emitsOnly_refreshDirectory localeCompare incoming closureHandle))
    as H.
  split; [exact H|].
  rewrite forallb_forall in H. apply Forall_forall. intros e He.
  specialize (H e He).
  destruct e as [[]| []| | | | | | | | | | | | | |]; try discriminate H;
    repeat split.
Qed.

(** X8. When read permission is refused, the scan shows the
    read-permission status and stops: the inventory stays, and nothing is
    enumerated or read. *)
Theorem refreshDirectory_permission_denied
    (localeCompare : string -> string -> Z) (dir : FileSystemDirectoryHandle)
    (closureHandle : option FileSystemDirectoryHandle) (w w1 : World) :
  ensurePermission dir read (scanStarted w) = (Returned false, w1) ->
  let run := refreshDirectory localeCompare (Some dir) closureHandle w in
  fst run = Returned tt /\
  status (snd run) = Some "読み取り権限を付与してください。" /\
  images (snd run) = images w /\
  isScanning (snd run) = false /\
  trace (snd run) = trace w1 /\
  forallb isPermissionEvent (emitted (refreshDirectory localeCompare (Some dir)
                                        closureHandle) w) = true.
Proof.
  intros Hdenied. cbv zeta.
  pose proof (keeps_ensurePermission images dir read
                ltac:(intros ? ?; reflexivity) (scanStarted w)) as Himages.
  pose proof (ensurePermission_frame dir read (scanStarted w)) as Hframe.
  rewrite Hdenied in Himages, Hframe. cbn [snd] in Himages, Hframe.
  destruct Hframe as (_ & _ & _ & _ & _ & _ & calls & Htrace & Hcalls).
  assert (Hrun : refreshDirectory localeCompare (Some dir) closureHandle w
                 = (Returned tt,
                    set_isScanning false
                      (snd (setStatus "読み取り権限を付与してください。" w1)))).
  { unfold refreshDirectory, tryFinally, tryCatch.
    unfold bind at 1 2. unfold bind at 1.
    change (snd (setStatus "ディレクトリを読み込み中..."
                   (snd (setIsScanning true w)))) with (scanStarted w).
    unfold scanStarted in *. unfold bind, setIsScanning, setStatus in *.
    cbn [snd] in *. rewrite Hdenied. reflexivity. }
  rewrite Hrun. cbn [fst snd set_isScanning setStatus status images isScanning trace].
  repeat (split; [reflexivity || assumption|]).
  unfold emitted. rewrite Hrun. cbn [snd set_isScanning setStatus trace].
  rewrite Htrace. cbn [scanStarted]. unfold scanStarted, bind, setIsScanning, setStatus.
  cbn [snd trace]. now rewrite skipn_length_app.
Qed.

Lemma refreshDirectory_permission_denied_witness :
  let w := Scenario.usedWorld in
  let run := refreshDirectory Sample.compareCodeUnits
               (Some Sample.deniedDirectory) None w in
  fst run = Returned tt /\
  status (snd run) = Some "読み取り権限を付与してください。" /\
  images (snd run) = images w /\
  isScanning (snd run) = false /\
  trace (snd run)
  = trace (snd (ensurePermission Sample.deniedDirectory read (scanStarted w))) /\
  forallb isPermissionEvent
    (emitted (refreshDirectory Sample.compareCodeUnits
                (Some Sample.deniedDirectory) None) w) = true.
Proof.
  intros w.
  apply (refreshDirectory_permission_denied Sample.compareCodeUnits
           Sample.deniedDirectory None w
           (snd (ensurePermission Sample.deniedDirectory read (scanStarted w)))).
  vm_compute. reflexivity.
Defined.

(** The scan proper, once read permission is given. *)
Lemma refreshDirectory_granted localeCompare dir closureHandle w w1 :
  ensurePermission dir read (scanStarted w) = (Returned true, w1) ->
  refreshDirectory localeCompare (Some dir) closureHandle w
  = match collectImageEntries localeCompare dir w1 with
    | (Returned items, w2) =>
        (Returned tt,
         set_isScanning false
           (snd ((setImages items ;;;
                  setStatus
                    (if (0 <? List.length items)%nat
                     then "読み込み完了 ("
                          ++ string_of_N (N.of_nat (List.length items)) ++ " 件)"
                     else "変換できるファイルが見つかりませんでした。")) w2)))
    | (Threw error, w2) =>
        (Returned tt,
         set_isScanning false
           (snd (setStatus
                   (messageOf error "ディレクトリの読み込みに失敗しました。") w2)))
    end.
Proof.
  intros Hgranted.
  unfold refreshDirectory, tryFinally, tryCatch.
  unfold bind at 1 2. unfold bind at 1.
  change (snd (setStatus "ディレクトリを読み込み中..."
                 (snd (setIsScanning true w)))) with (scanStarted w).
  unfold scanStarted in *. unfold bind, setIsScanning, setStatus in *.
  cbn [snd] in *. rewrite Hgranted. cbn [negb].
  destruct (collectImageEntries localeCompare dir w1) as [[items|error] w2];
    reflexivity.
Qed.

(** X9. When the enumeration fails, by a rejected [entries] or an
    unreadable file, the scan shows the message of the error (a fixed text
    for a thrown value that is no [Error]) and keeps the inventory it
    had. *)
Theorem refreshDirectory_scan_failure
    (localeCompare : string -> string -> Z) (dir : FileSystemDirectoryHandle)
    (closureHandle : option FileSystemDirectoryHandle) (w w1 w2 : World)
    (error : Thrown) :
  ensurePermission dir read (scanStarted w) = (Returned true, w1) ->
  collectImageEntries localeCompare dir w1 = (Threw error, w2) ->
  let run := refreshDirectory localeCompare (Some dir) closureHandle w in
  fst run = Returned tt /\
  status (snd run)
  = Some (match error with
          | ErrorObject message => message
          | OtherValue => "ディレクトリの読み込みに失敗しました。"
          end) /\
  images (snd run) = images w /\
  isScanning (snd run) = false.
Proof.
  intros Hgranted Hscan. cbv zeta.
  rewrite (refreshDirectory_granted localeCompare dir closureHandle w w1 Hgranted).
  rewrite Hscan. cbn [fst snd set_isScanning setStatus status images isScanning].
  split; [reflexivity|]. split; [now destruct error|]. split; [|reflexivity].
  pose proof (keeps_collectImageEntries images localeCompare dir
                ltac:(intros ? ?; reflexivity) w1) as H2.
  pose proof (keeps_ensurePermission images dir read
                ltac:(intros ? ?; reflexivity) (scanStarted w)) as H1.
  rewrite Hscan in H2. rewrite Hgranted in H1. cbn [snd] in H1, H2.
  now rewrite H2, H1.
Qed.

Lemma refreshDirectory_scan_failure_witness :
  let w := Scenario.usedWorld in
  let run := refreshDirectory Sample.compareCodeUnits
               (Some Scenario.brokenDirectory) None w in
  fst run = Returned tt /\
  status (snd run)
  = Some "A requested file or directory could not be found." /\
  images (snd run) = images w /\
  isScanning (snd run) = false.
Proof.
  intros w.
  apply (refreshDirectory_scan_failure Sample.compareCodeUnits
           Scenario.brokenDirectory None w
           (snd (ensurePermission Scenario.brokenDirectory read (scanStarted w)))
           (snd (collectImageEntries Sample.compareCodeUnits
                   Scenario.brokenDirectory
                   (snd (ensurePermission Scenario.brokenDirectory read
                           (scanStarted w)))))
           (ErrorObject "A requested file or directory could not be found.")).
  - vm_compute. reflexivity.
  - vm_compute. reflexivity.
Defined.

(** X10. When the enumeration returns, its result replaces the inventory,
    and the status tells how many entries were found, or that none was. *)
Theorem refreshDirectory_scan_success
    (localeCompare : string -> string -> Z) (dir : FileSystemDirectoryHandle)
    (closureHandle : option FileSystemDirectoryHandle) (w w1 w2 : World)
    (items : list ImageEntry) :
  ensurePermission dir read (scanStarted w) = (Returned true, w1) ->
  collectImageEntries localeCompare dir w1 = (Returned items, w2) ->
  let run := refreshDirectory localeCompare (Some dir) closureHandle w in
  fst run = Returned tt /\
  images (snd run) = items /\
  status (snd run)
  = Some (match items with
          | [] => "変換できるファイルが見つかりませんでした。"
          | _ :: _ => "読み込み完了 ("
                      ++ string_of_N (N.of_nat (List.length items)) ++ " 件)"
          end) /\
  isScanning (snd run) = false /\
  trace (snd run) = trace w2.
Proof.
  intros Hgranted Hscan. cbv zeta.
  rewrite (refreshDirectory_granted localeCompare dir closureHandle w w1 Hgranted).
  rewrite Hscan. unfold bind, setImages, setStatus.
  cbn [fst snd set_isScanning status images isScanning trace].
  repeat (split; [reflexivity|]). split; [|split; reflexivity].
  now destruct items.
Qed.

Lemma refreshDirectory_scan_success_witness :
  let w := Scenario.usedWorld in
  let run := refreshDirectory Sample.compareCodeUnits
               (Some Sample.grantedDirectory) None w in
  fst run = Returned tt /\
  images (snd run) = Sample.inventory /\
  status (snd run) = Some "読み込み完了 (4 件)" /\
  isScanning (snd run) = false /\
  trace (snd run)
  = trace (snd (collectImageEntries Sample.compareCodeUnits
                  Sample.grantedDirectory
                  (snd (ensurePermission Sample.grantedDirectory read
                          (scanStarted w))))).
Proof.
  intros w.
  apply (refreshDirectory_scan_success Sample.compareCodeUnits
           Sample.grantedDirectory None w
           (snd (ensurePermission Sample.grantedDirectory read (scanStarted w)))
           (snd (collectImageEntries Sample.compareCodeUnits
                   Sample.grantedDirectory
                   (snd (ensurePermission Sample.grantedDirectory read
                           (scanStarted w)))))
           Sample.inventory).
  - vm_compute. reflexivity.
  - vm_compute. reflexivity.
Defined.

(** ** collectImageEntries *)

Lemma collectImageEntries_loop_app pre post :
  forall acc w,
    collectImageEntries_loop (pre ++ post) acc w
    = bind (collectImageEntries_loop pre acc)
           (fun result => collectImageEntries_loop post result) w.
Proof.
  induction pre as [|[childName entry] pre IH]; intros acc w.
  - reflexivity.
  - cbn [app collectImageEntries_loop].
    destruct entry as [fileHandle|dirName]; [|apply IH].
    unfold bind, perform.
    destruct (getFile fileHandle (trace w)) as [file|e]; [|reflexivity].
    destruct (negb _); rewrite IH; reflexivity.
Qed.

Lemma sort_insert_length {A} (compareFn : A -> A -> Z) (x : A) (l : list A) :
  List.length (sort_insert compareFn x l) = S (List.length l).
Proof.
  induction l as [|y l IH]; [reflexivity|].
  cbn [sort_insert]. destruct (compareFn x y <=? 0); cbn [List.length];
    [reflexivity | now rewrite IH].
Qed.

Lemma sort_length {A} (compareFn : A -> A -> Z) (l : list A) :
  List.length (sort compareFn l) = List.length l.
Proof.
  induction l as [|x l IH]; [reflexivity|].
  cbn [sort]. now rewrite sort_insert_length, IH.
Qed.

Lemma collectImageEntries_loop_length children :
  forall acc w result w',
    collectImageEntries_loop children acc w = (Returned result, w') ->
    (List.length result
     <= List.length acc + List.length (fileChildren children))%nat.
Proof.
  induction children as [|[childName entry] rest IH]; intros acc w result w'.
  - cbn. intros H. injection H as <- _. lia.
  - destruct entry as [fileHandle|dirName];
      cbn [collectImageEntries_loop fileChildren flat_map snd fst app].
    + unfold bind at 1, perform.
      destruct (getFile fileHandle (trace w)) as [file|e]; [|discriminate].
      destruct (negb _); intros H; apply IH in H;
        rewrite ?length_app in H; cbn [List.length] in *;
        unfold fileChildren in *; lia.
    + intros H. apply IH in H. exact H.
Qed.

Lemma collectImageEntries_loop_complete children :
  forall acc w result w',
    collectImageEntries_loop children acc w = (Returned result, w') ->
    (forall item, In item acc -> In item result) /\
    (forall childName fileHandle,
        In (childName, KindFile fileHandle) children ->
        alwaysSupported fileHandle ->
        exists item,
          In item result /\ name item = childName /\ handle item = fileHandle).
Proof.
  induction children as [|[childName entry] rest IH]; intros acc w result w'.
  - cbn. intros H. injection H as <- _. split; [auto|]. intros ? ? [].
  - destruct entry as [fileHandle|dirName]; cbn [collectImageEntries_loop].
    + unfold bind at 1, perform.
      destruct (getFile fileHandle (trace w)) as [file|e] eqn:Hfile;
        [|discriminate].
      destruct (SUPPORTED_MIME_TYPES_has (file_type file)) eqn:Hs; cbn [negb];
        intros H; apply IH in H as [Hacc Hrest]; split.
      * intros item Hitem. apply Hacc, in_or_app. now left.
      * intros n fh [Hin|Hin] Hfh; [|now apply Hrest].
        injection Hin as <- <-.
        eexists. split; [apply Hacc, in_or_app; right; left; reflexivity|].
        split; reflexivity.
      * exact Hacc.
      * intros n fh [Hin|Hin] Hfh; [|now apply Hrest].
        injection Hin as <- <-.
        destruct (Hfh (trace w)) as (file' & Hfile' & Hs').
        rewrite Hfile in Hfile'. injection Hfile' as <-.
        rewrite Hs in Hs'. discriminate Hs'.
    + intros H. apply IH in H as [Hacc Hrest]. split; [exact Hacc|].
      intros n fh [Hin|Hin] Hfh; [discriminate Hin | now apply Hrest].
Qed.

(** X11. One unreadable file fails the whole scan: when [getFile] rejects
    for a child of kind file, [collectImageEntries] rejects with that
    error, and nothing is read after it. *)
Theorem collectImageEntries_unreadable_file
    (localeCompare : string -> string -> Z) (dir : FileSystemDirectoryHandle)
    (w w1 : World) (pre post : list (string * FileSystemHandle))
    (childName : string) (fileHandle : FileSystemFileHandle)
    (acc : list ImageEntry) (error : Thrown) :
  fst (entries dir (trace w)) = (pre ++ (childName, KindFile fileHandle) :: post)%list ->
  collectImageEntries_loop pre [] (record EvEntries w) = (Returned acc, w1) ->
  getFile fileHandle (trace w1) = Threw error ->
  collectImageEntries localeCompare dir w
  = (Threw error, record (EvGetFile childName) w1).
Proof.
  intros Hchildren Hpre Hfile.
  unfold collectImageEntries. unfold bind at 1, perform at 1.
  unfold bind at 1. cbn [fst]. rewrite Hchildren.
  rewrite collectImageEntries_loop_app. unfold bind at 1. rewrite Hpre.
  cbn [collectImageEntries_loop]. unfold bind, perform. now rewrite Hfile.
Qed.

Lemma collectImageEntries_unreadable_file_witness :
  let w := Sample.world Scenario.brokenDirectory [] in
  collectImageEntries Sample.compareCodeUnits Scenario.brokenDirectory w
  = (Threw (ErrorObject "A requested file or directory could not be found."),
     record (EvGetFile "gone.png")
       (snd (collectImageEntries_loop
               [("a.png", KindFile (Sample.fileHandle "a.png" "image/png"))]
               [] (record EvEntries w)))).
Proof.
  intros w.
  apply (collectImageEntries_unreadable_file Sample.compareCodeUnits
           Scenario.brokenDirectory w _
           [("a.png", KindFile (Sample.fileHandle "a.png" "image/png"))]
           [("z.png", KindFile (Sample.fileHandle "z.png" "image/png"))]
           "gone.png" (Scenario.unreadable "gone.png")
           [Sample.entry "a.png" "image/png"]).
  - reflexivity.
  - reflexivity.
  - reflexivity.
Defined.

(** X12. A scan that returns drops no image: every child of kind file
    that can be read and has a supported type has an entry, under its name
    and with its handle; and there are at most as many entries as children
    of kind file. *)
Theorem collectImageEntries_is_complete
    (localeCompare : string -> string -> Z) (dir : FileSystemDirectoryHandle)
    (w : World) (items : list ImageEntry) (w' : World) :
  collectImageEntries localeCompare dir w = (Returned items, w') ->
  (List.length items
   <= List.length (fileChildren (fst (entries dir (trace w)))))%nat /\
  forall childName fileHandle,
    In (childName, KindFile fileHandle) (fst (entries dir (trace w))) ->
    alwaysSupported fileHandle ->
    exists item,
      In item items /\ name item = childName /\ handle item = fileHandle.
Proof.
  unfold collectImageEntries.
  unfold bind at 1, perform at 1. unfold bind at 1.
  destruct (collectImageEntries_loop _ [] _) as [[result|e] w1] eqn:Hloop;
    [|discriminate].
  destruct (snd (entries dir (trace w))) as [error|]; [discriminate|].
  cbn [ret]. intros H. injection H as <- _.
  split.
  - rewrite sort_length.
    apply collectImageEntries_loop_length in Hloop. cbn in Hloop. exact Hloop.
  - intros childName fileHandle Hin Hfh.
    destruct (proj2 (collectImageEntries_loop_complete _ _ _ _ _ Hloop)
                childName fileHandle Hin Hfh) as (item & Hitem & Hname & Hhandle).
    exists item. split; [|now split].
    apply sort_In. exact Hitem.
Qed.

Lemma collectImageEntries_is_complete_witness :
  let w := Sample.world Sample.grantedDirectory [] in
  (List.length Sample.inventory
   <= List.length (fileChildren (fst (entries Sample.grantedDirectory (trace w)))))%nat /\
  forall childName fileHandle,
    In (childName, KindFile fileHandle)
       (fst (entries Sample.grantedDirectory (trace w))) ->
    alwaysSupported fileHandle ->
    exists item,
      In item Sample.inventory /\ name item = childName /\
      handle item = fileHandle.
Proof.
  intros w.
  apply (collectImageEntries_is_complete Sample.compareCodeUnits
           Sample.grantedDirectory w Sample.inventory
           (snd (collectImageEntries Sample.compareCodeUnits
                   Sample.grantedDirectory w))).
  vm_compute. reflexivity.
Defined.

(** ** convertWithCanvas *)

(** What [rasterize] leaves behind: decoding calls only, no cleanup yet. *)
Lemma rasterize_calls env file w :
  exists pre,
    trace (snd (rasterize env file w)) = (trace w ++ pre)%list /\
    forallb isCanvasWork pre = true /\
    count isCleanup pre = 0%nat.
Proof.
  unfold rasterize.
  destruct (createImageBitmap env) as [decode|]; unfold bind, perform.
  - exists [EvCreateImageBitmap file].
    destruct (decode (trace w) file); repeat split.
  - cbn [record trace].
    exists [EvCreateObjectURL file;
            EvImageLoad (createObjectURL env (trace w) file)].
    destruct (loadImage env _ _); cbn [ret snd record trace];
      rewrite <- ?app_assoc; repeat split.
Qed.

(** The source [rasterize] returns: it draws one image, of the size the
    source reports, and its cleanup is one release call. *)
Lemma rasterize_source env file w source w1 :
  rasterize env file w = (Returned source, w1) ->
  exists src release,
    source = mkSource (fst (sourceSize src)) (snd (sourceSize src))
               (fun _ => perform (EvDrawImage src)
                           (fun h => drawImage env h src))
               (perform release (fun _ => Returned tt)) /\
    isCleanup release = true.
Proof.
  unfold rasterize.
  destruct (createImageBitmap env) as [decode|]; unfold bind at 1.
  - unfold perform at 1.
    destruct (decode (trace w) file) as [bitmap|e]; [|discriminate].
    cbn [ret]. intros H. injection H as <- _.
    exists (FromBitmap bitmap), (EvBitmapClose bitmap). split; reflexivity.
  - unfold perform at 1. unfold bind at 1, perform at 1. cbn [record trace].
    destruct (loadImage env _ _) as [img|]; [|discriminate].
    cbn [ret]. intros H. injection H as <- _.
    exists (FromImage img), (EvRevokeObjectURL (createObjectURL env (trace w) file)).
    split; reflexivity.
Qed.

(** [convertWithCanvas] after a successful [rasterize], call by call. *)
Lemma convertWithCanvas_after_rasterize env file mimeType w w1 src release :
  rasterize env file w
  = (Returned
       (mkSource (fst (sourceSize src)) (snd (sourceSize src))
          (fun _ => perform (EvDrawImage src) (fun h => drawImage env h src))
          (perform release (fun _ => Returned tt))), w1) ->
  let canvas := mkCanvas (fst (sourceSize src)) (snd (sourceSize src)) in
  let quality :=
    if String.eqb mimeType "image/webp" then Some WEBP_QUALITY else None in
  let w2 := record (EvGetContext canvas) w1 in
  let w3 := record (EvDrawImage src) w2 in
  let w4 := record (EvToBlob canvas mimeType quality) w3 in
  convertWithCanvas env file mimeType w
  = if getContext2d env (trace w1) canvas then
      match drawImage env (trace w2) src with
      | Threw e => (Threw e, w3)
      | Returned _ =>
          match toBlob env (trace w3) canvas mimeType quality with
          | Returned (Some blob) => (Returned blob, record release w4)
          | Returned None =>
              (Threw (ErrorObject "Canvas から Blob を生成できませんでした。"), w4)
          | Threw e => (Threw e, w4)
          end
      end
    else
      (Threw (ErrorObject "Canvas コンテキストを初期化できませんでした。"),
       record release w2).
Proof.
  intros Hsource. cbv zeta.
  unfold convertWithCanvas. unfold bind at 1. rewrite Hsource.
  cbn [width height draw cleanup].
  unfold bind at 1, perform at 1.
  destruct (getContext2d env (trace w1) _); [|reflexivity].
  unfold bind at 1, perform at 1.
  destruct (drawImage env _ src) as [[]|e]; [|reflexivity].
  unfold bind at 1, canvasToBlob, bind at 1, perform at 1.
  destruct (toBlob env _ _ mimeType _) as [[blob|]|e]; reflexivity.
Qed.

(** X13. [cleanup] is never run twice: one conversion closes its bitmap,
    or revokes its object URL, at most once, and exactly once when it
    returns a blob. *)
Theorem convertWithCanvas_cleanup_at_most_once (env : Env) (file : File)
    (mimeType : string) (w : World) :
  let calls := emitted (convertWithCanvas env file mimeType) w in
  (count isCleanup calls <= 1)%nat /\
  match fst (convertWithCanvas env file mimeType w) with
  | Returned _ => count isCleanup calls = 1%nat
  | Threw _ => True
  end.
Proof.
  cbv zeta. unfold emitted.
  destruct (rasterize_calls env file w) as (pre & Hpre & _ & Hnone).
  assert (Hcount : forall extra,
             count isCleanup (pre ++ extra)%list = count isCleanup extra).
  { intros extra. unfold count in *. rewrite filter_app, length_app. lia. }
  destruct (rasterize env file w) as [[source|e] w1] eqn:Hrast; cbn [snd] in Hpre.
  - destruct (rasterize_source env file w source w1 Hrast)
      as (src & release & -> & Hrelease).
    rewrite (convertWithCanvas_after_rasterize env file mimeType w w1 src release
               Hrast).
    cbv zeta.
    destruct (getContext2d env (trace w1) _);
      [destruct (drawImage env _ src) as [[]|e];
       [destruct (toBlob env _ _ mimeType _) as [[blob|]|e]|]|];
      cbn [fst snd record trace]; rewrite Hpre, <- ?app_assoc, skipn_length_app,
        Hcount; unfold count; cbn [app filter isCleanup];
      rewrite ?Hrelease; cbn [List.length]; auto.
  - unfold convertWithCanvas, bind. rewrite Hrast. cbn [fst snd].
    rewrite Hpre, skipn_length_app, Hnone. auto.
Qed.

Lemma count_other_kind (p q : Event -> bool) (calls : History) :
  (forall e, p e = true -> q e = false) ->
  forallb p calls = true -> count q calls = 0%nat.
Proof.
  intros Hpq. unfold count. induction calls as [|e calls IH]; [reflexivity|].
  cbn [forallb filter]. intros H. apply andb_true_iff in H as [He Hrest].
  rewrite (Hpq e He). now apply IH.
Qed.

Lemma emitsOnly_convertWithCanvas env file mimeType :
  emitsOnly isCanvasWork (convertWithCanvas env file mimeType).
Proof.
  intros w.
  destruct (rasterize_calls env file w) as (pre & Hpre & Hwork & _).
  destruct (rasterize env file w) as [[source|e] w1] eqn:Hrast;
    cbn [snd] in Hpre.
  - destruct (rasterize_source env file w source w1 Hrast)
      as (src & release & -> & Hrelease).
    rewrite (convertWithCanvas_after_rasterize env file mimeType w w1 src
               release Hrast).
    cbv zeta.
    assert (Hrel : isCanvasWork release = true)
      by (destruct release; try discriminate Hrelease; reflexivity).
    destruct (getContext2d env (trace w1) _);
      [destruct (drawImage env _ src) as [[]|e];
       [destruct (toBlob env _ _ mimeType _) as [[blob|]|e]|]|];
      cbn [fst snd record trace];
      rewrite Hpre, <- ?app_assoc; eexists; (split; [reflexivity|]);
      rewrite forallb_app, Hwork;
      cbn [app forallb isCanvasWork andb]; rewrite ?Hrel; reflexivity.
  - unfold convertWithCanvas, bind. rewrite Hrast. cbn [snd].
    exists pre. now split.
Qed.

(** X14. A conversion only decodes, draws and encodes: whatever its
    outcome, it calls no permission method and touches no file of the
    directory. *)
Theorem convertWithCanvas_is_canvas_work (env : Env) (file : File)
    (mimeType : string) (w : World) :
  let calls := emitted (convertWithCanvas env file mimeType) w in
  forallb isCanvasWork calls = true /\
  count isFileAccess calls = 0%nat /\
  count isPermissionEvent calls = 0%nat.
Proof.
  cbv zeta.
  pose proof (emitsOnly_emitted isCanvasWork _ w
                (emitsOnly_convertWithCanvas env file mimeType)) as H.
  split; [exact H|].
  split; apply (count_other_kind isCanvasWork); try exact H;
    intros e He; destruct e; try discriminate He; reflexivity.
Qed.

(** X15. A conversion that returns a blob has made exactly these calls, in
    this order: the decoding of the file (by [createImageBitmap], or by an
    object URL and an image element), [getContext] on a canvas of the width
    and height of the image that decoding gave, [drawImage] of that very
    image, one [toBlob] on that canvas with the quality of the MIME type,
    and the release of that very source ([close] of the bitmap, or
    [revokeObjectURL] of the URL made for the file).  The blob is the one
    [toBlob] gave. *)
Theorem convertWithCanvas_returned_blob (env : Env) (file : File)
    (mimeType : string) (w : World) (blob : Blob) (w' : World) :
  convertWithCanvas env file mimeType w = (Returned blob, w') ->
  let quality :=
    if String.eqb mimeType "image/webp" then Some WEBP_QUALITY else None in
  match createImageBitmap env with
  | Some decode =>
      exists bitmap,
        decode (trace w) file = Returned bitmap /\
        let canvas := mkCanvas (bitmap_width bitmap) (bitmap_height bitmap) in
        emitted (convertWithCanvas env file mimeType) w
        = [EvCreateImageBitmap file; EvGetContext canvas;
           EvDrawImage (FromBitmap bitmap); EvToBlob canvas mimeType quality;
           EvBitmapClose bitmap] /\
        toBlob env
          (trace w ++ [EvCreateImageBitmap file; EvGetContext canvas;
                       EvDrawImage (FromBitmap bitmap)])%list
          canvas mimeType quality = Returned (Some blob)
  | None =>
      let url := createObjectURL env (trace w) file in
      exists img,
        loadImage env (trace w ++ [EvCreateObjectURL file])%list url = Some img /\
        let canvas := mkCanvas (img_width img) (img_height img) in
        emitted (convertWithCanvas env file mimeType) w
        = [EvCreateObjectURL file; EvImageLoad url; EvGetContext canvas;
           EvDrawImage (FromImage img); EvToBlob canvas mimeType quality;
           EvRevokeObjectURL url] /\
        toBlob env
          (trace w ++ [EvCreateObjectURL file; EvImageLoad url;
                       EvGetContext canvas; EvDrawImage (FromImage img)])%list
          canvas mimeType quality = Returned (Some blob)
  end.
Proof.
  intros Hrun. cbv zeta.
  assert (Hcalls : emitted (convertWithCanvas env file mimeType) w
                   = skipn (List.length (trace w)) (trace w'))
    by (unfold emitted; now rewrite Hrun).
  set (calls := emitted (convertWithCanvas env file mimeType) w) in *.
  clearbody calls. subst calls. revert Hrun.
  unfold convertWithCanvas, rasterize.
  destruct (createImageBitmap env) as [decode|].
  - unfold bind at 1 2, perform at 1.
    destruct (decode (trace w) file) as [bitmap|e]; [|discriminate].
    cbn [ret width height draw cleanup].
    unfold bind, perform, canvasToBlob, bind, perform. cbn [record trace].
    rewrite <- ?app_assoc. cbn [app].
    destruct (getContext2d env _ _); [|discriminate].
    destruct (drawImage env _ _) as [[]|e]; [|discriminate].
    destruct (toBlob env _ _ mimeType _) as [[blob'|]|e] eqn:Hblob;
      try discriminate.
    cbn [ret]. intros H. injection H as <- <-.
    exists bitmap. split; [reflexivity|].
    split;
      [|cbn [record trace] in Hblob; rewrite <- ?app_assoc in Hblob;
        cbn [app] in Hblob; exact Hblob].
    cbn [record trace]. rewrite <- ?app_assoc. cbn [app].
    apply skipn_length_app.
  - unfold bind at 1 2 3, perform at 1 2. cbn [record trace].
    destruct (loadImage env _ _) as [img|] eqn:Himg; [|discriminate].
    cbn [ret width height draw cleanup].
    unfold bind, perform, canvasToBlob, bind, perform. cbn [record trace].
    rewrite <- ?app_assoc. cbn [app].
    destruct (getContext2d env _ _); [|discriminate].
    destruct (drawImage env _ _) as [[]|e]; [|discriminate].
    destruct (toBlob env _ _ mimeType _) as [[blob'|]|e] eqn:Hblob;
      try discriminate.
    cbn [ret]. intros H. injection H as <- <-.
    exists img. split; [reflexivity|].
    split;
      [|cbn [record trace] in Hblob; rewrite <- ?app_assoc in Hblob;
        cbn [app] in Hblob; exact Hblob].
    cbn [record trace]. rewrite <- ?app_assoc. cbn [app].
    apply skipn_length_app.
Qed.

Lemma convertWithCanvas_returned_blob_witness :
  let w := Sample.world Sample.grantedDirectory Sample.inventory in
  exists img,
    loadImage Sample.legacyEnv (trace w ++ [EvCreateObjectURL Sample.smallFile])%list
      "blob:a.png" = Some img /\
    let canvas := mkCanvas (img_width img) (img_height img) in
    emitted (convertWithCanvas Sample.legacyEnv Sample.smallFile "image/png") w
    = [EvCreateObjectURL Sample.smallFile; EvImageLoad "blob:a.png";
       EvGetContext canvas; EvDrawImage (FromImage img);
       EvToBlob canvas "image/png" None; EvRevokeObjectURL "blob:a.png"] /\
    toBlob Sample.legacyEnv
      (trace w ++ [EvCreateObjectURL Sample.smallFile; EvImageLoad "blob:a.png";
                   EvGetContext canvas; EvDrawImage (FromImage img)])%list
      canvas "image/png" None = Returned (Some (mkBlob 2048 "image/png")).
Proof.
  intros w.
  apply (convertWithCanvas_returned_blob Sample.legacyEnv Sample.smallFile
           "image/png" w (mkBlob 2048 "image/png")
           (snd (convertWithCanvas Sample.legacyEnv Sample.smallFile
                   "image/png" w))).
  vm_compute. reflexivity.
Defined.

(** X16. Without [createImageBitmap], an image that fails to load makes
    the conversion reject with the load error, and the object URL made for
    it is never revoked. *)
Theorem convertWithCanvas_load_failure_keeps_url (env : Env) (file : File)
    (mimeType : string) (w : World) :
  createImageBitmap env = None ->
  let url := createObjectURL env (trace w) file in
  loadImage env (trace w ++ [EvCreateObjectURL file])%list url = None ->
  fst (convertWithCanvas env file mimeType w)
  = Threw (ErrorObject "画像の読み込みに失敗しました。") /\
  emitted (convertWithCanvas env file mimeType) w
  = [EvCreateObjectURL file; EvImageLoad url] /\
  count isCleanup (emitted (convertWithCanvas env file mimeType) w) = 0%nat.
Proof.
  intros Hnone url Hload.
  assert (Hrun : convertWithCanvas env file mimeType w
                 = (Threw (ErrorObject "画像の読み込みに失敗しました。"),
                    record (EvImageLoad url) (record (EvCreateObjectURL file) w))).
  { unfold convertWithCanvas, rasterize. rewrite Hnone.
    unfold bind, perform. cbn [record trace]. fold url. now rewrite Hload. }
  unfold emitted. rewrite Hrun. cbn [fst snd record trace].
  rewrite <- app_assoc, skipn_length_app. repeat split.
Qed.

Lemma convertWithCanvas_load_failure_keeps_url_witness :
  let w := Sample.world Sample.grantedDirectory Sample.inventory in
  fst (convertWithCanvas Scenario.failingLegacyEnv Sample.smallFile "image/webp" w)
  = Threw (ErrorObject "画像の読み込みに失敗しました。") /\
  emitted (convertWithCanvas Scenario.failingLegacyEnv Sample.smallFile
             "image/webp") w
  = [EvCreateObjectURL Sample.smallFile; EvImageLoad "blob:a.png"] /\
  count isCleanup
    (emitted (convertWithCanvas Scenario.failingLegacyEnv Sample.smallFile
                "image/webp") w) = 0%nat.
Proof.
  intros w.
  apply (convertWithCanvas_load_failure_keeps_url Scenario.failingLegacyEnv
           Sample.smallFile "image/webp" w); reflexivity.
Defined.


(** ** handleConversion *)

Lemma emitsOnly_convertCandidate env dir direction candidate :
  hasExtension (name candidate) (sourceExt (DIRECTION_CONFIG direction)) = true ->
  emitsOnly (sparesSources (DIRECTION_CONFIG direction))
    (convertCandidate env dir (DIRECTION_CONFIG direction) candidate).
Proof.
  intros Hmatch.
  destruct (replaceExtension_of_match direction (name candidate) Hmatch)
    as (Htarget & Hsource & _).
  assert (Hnew : forall e,
             writtenName e
             = Some (replaceExtension (name candidate)
                       (targetExt (DIRECTION_CONFIG direction))) ->
             sparesSources (DIRECTION_CONFIG direction) e = true).
  { intros e He. unfold sparesSources. now rewrite He, Htarget, Hsource. }
  unfold convertCandidate, convertCandidate_try.
  apply emitsOnly_tryCatch; [|intros e; calls].
  apply emitsOnly_bind; [calls|intros _].
  apply emitsOnly_bind; [calls|intros file].
  apply emitsOnly_bind.
  { apply (emitsOnly_weaken isCanvasWork); [|apply emitsOnly_convertWithCanvas].
    intros e He. destruct e; try discriminate He; reflexivity. }
  intros blob. cbv zeta.
  apply emitsOnly_bind; [apply emitsOnly_perform, Hnew; reflexivity|intros h].
  apply emitsOnly_bind; [apply emitsOnly_perform, Hnew; reflexivity|intros s].
  apply emitsOnly_bind; [apply emitsOnly_perform, Hnew; reflexivity|intros _].
  apply emitsOnly_bind; [apply emitsOnly_perform, Hnew; reflexivity|intros _].
  calls.
Qed.

Lemma emitsOnly_handleConversion env localeCompare direction :
  emitsOnly (sparesSources (DIRECTION_CONFIG direction))
    (handleConversion env localeCompare direction).
Proof.
  intros w. unfold handleConversion.
  destruct (directoryHandle w) as [dir|];
    [|exists []; now rewrite app_nil_r].
  cbv zeta.
  set (targets := conversionTargets (DIRECTION_CONFIG direction) (images w)).
  assert (Htargets : forall c, In c targets ->
             hasExtension (name c) (sourceExt (DIRECTION_CONFIG direction)) = true).
  { intros c Hc. apply filter_In in Hc. exact (proj2 Hc). }
  revert w targets Htargets. intros w0 targets Htargets.
  match goal with
  | |- exists calls, trace (snd (?m w0)) = _ /\ _ =>
      assert (H : emitsOnly (sparesSources (DIRECTION_CONFIG direction)) m);
      [|exact (H w0)]
  end.
  destruct (List.length targets =? 0)%nat; [calls|].
  apply emitsOnly_bind.
  { apply (emitsOnly_weaken (isModeOf readwrite));
      [|apply emitsOnly_ensurePermission].
    intros e He. destruct e; try discriminate He; reflexivity. }
  intros isGranted. destruct (negb isGranted); [calls|].
  apply emitsOnly_bind; [calls|intros _].
  apply emitsOnly_bind; [calls|intros _].
  apply emitsOnly_bind.
  { apply emitsOnly_forOf. intros c Hc.
    now apply emitsOnly_convertCandidate, Htargets. }
  intros _.
  apply emitsOnly_bind; [calls|intros _].
  apply emitsOnly_bind; [calls|intros _].
  apply (emitsOnly_weaken isScanCall); [|apply emitsOnly_refreshDirectory].
  intros e He. destruct e as [[]|[]| | | | | | | | | | | | | |];
    try discriminate He; reflexivity.
Qed.

(** X17. A run never writes over a source: every file it creates, opens,
    writes or closes has a name with the target suffix of the direction,
    which does not match the source suffix and so is the name of none of
    the matched entries. *)
Theorem handleConversion_spares_sources (env : Env)
    (localeCompare : string -> string -> Z) (direction : ConversionDirection)
    (w : World) :
  let config := DIRECTION_CONFIG direction in
  Forall (fun e =>
            match writtenName e with
            | Some written =>
                hasExtension written (targetExt config) = true /\
                hasExtension written (sourceExt config) = false /\
                ~ In written (map name (conversionTargets config (images w)))
            | None => True
            end)
         (emitted (handleConversion env localeCompare direction) w).
Proof.
  cbv zeta.
  pose proof (emitsOnly_emitted _ _ w
                (emitsOnly_handleConversion env localeCompare direction)) as H.
  rewrite forallb_forall in H. apply Forall_forall. intros e He.
  specialize (H e He). unfold sparesSources in H.
  destruct (writtenName e) as [written|]; [|exact I].
  apply andb_true_iff in H as [Htarget Hsource].
  apply negb_true_iff in Hsource.
  split; [exact Htarget|]. split; [exact Hsource|].
  intros Hin. apply in_map_iff in Hin as (c & Hname & Hc).
  apply filter_In in Hc as [_ Hc]. rewrite Hname, Hsource in Hc.
  discriminate Hc.
Qed.

(** X18. An error of the permission methods is not caught by
    [handleConversion]: with a non-empty match set, when the check for
    [readwrite] throws, the run throws the same error, having changed no
    status, log or flag and touched no file. *)
Theorem handleConversion_permission_error (env : Env)
    (localeCompare : string -> string -> Z) (direction : ConversionDirection)
    (w : World) (dir : FileSystemDirectoryHandle) (error : Thrown)
    (w1 : World) :
  directoryHandle w = Some dir ->
  conversionTargets (DIRECTION_CONFIG direction) (images w) <> [] ->
  ensurePermission dir readwrite w = (Threw error, w1) ->
  handleConversion env localeCompare direction w = (Threw error, w1) /\
  status w1 = status w /\
  logs w1 = logs w /\
  isConverting w1 = isConverting w /\
  count isFileAccess (emitted (handleConversion env localeCompare direction) w)
  = 0%nat.
Proof.
  intros Hdir Htargets Hthrows.
  assert (Hrun : handleConversion env localeCompare direction w
                 = (Threw error, w1)).
  { unfold handleConversion. rewrite Hdir. cbv zeta.
    destruct (conversionTargets (DIRECTION_CONFIG direction) (images w))
      as [|c rest]; [contradiction|].
    cbn [List.length Nat.eqb]. unfold bind at 1. now rewrite Hthrows. }
  pose proof (ensurePermission_frame dir readwrite w) as Hframe.
  rewrite Hthrows in Hframe. cbn [snd] in Hframe.
  destruct Hframe as (_ & _ & Hstatus & Hlogs & _ & Hconv & calls & Htrace & Hcalls).
  split; [exact Hrun|]. repeat (split; [assumption|]).
  unfold emitted. rewrite Hrun. cbn [snd]. rewrite Htrace, skipn_length_app.
  now apply permission_calls_are_no_file_access.
Qed.

Lemma handleConversion_permission_error_witness :
  let w := Sample.world Scenario.throwingDirectory Sample.inventory in
  let w1 := snd (ensurePermission Scenario.throwingDirectory readwrite w) in
  handleConversion Sample.env Sample.compareCodeUnits png_to_webp w
  = (Threw (ErrorObject "The request is not allowed."), w1) /\
  status w1 = status w /\
  logs w1 = logs w /\
  isConverting w1 = isConverting w /\
  count isFileAccess
    (emitted (handleConversion Sample.env Sample.compareCodeUnits png_to_webp) w)
  = 0%nat.
Proof.
  intros w w1.
  apply (handleConversion_permission_error Sample.env Sample.compareCodeUnits
           png_to_webp w Scenario.throwingDirectory).
  - reflexivity.
  - vm_compute. discriminate.
  - vm_compute. reflexivity.
Defined.

Lemma appendLog_update_fold_length (lines prev : list string) :
  (List.length prev <= 20)%nat ->
  List.length (fold_left (fun l e => appendLog_update e l) lines prev)
  = Nat.min 20 (List.length prev + List.length lines).
Proof.
  revert prev. induction lines as [|line lines IH]; intros prev Hprev.
  - cbn [fold_left List.length]. lia.
  - cbn [fold_left List.length]. rewrite IH.
    + rewrite appendLog_update_length. lia.
    + rewrite appendLog_update_length. lia.
Qed.

(** A run that got the permission ends in the rescan, started with the
    converting flag off. *)
Lemma handleConversion_granted_run env localeCompare direction w dir w1 :
  directoryHandle w = Some dir ->
  conversionTargets (DIRECTION_CONFIG direction) (images w) <> [] ->
  ensurePermission dir readwrite w = (Returned true, w1) ->
  exists w3,
    isConverting w3 = false /\
    handleConversion env localeCompare direction w
    = refreshDirectory localeCompare None (Some dir) w3.
Proof.
  intros Hdir Htargets Hgranted. unfold handleConversion. rewrite Hdir.
  cbv zeta.
  destruct (conversionTargets (DIRECTION_CONFIG direction) (images w))
    as [|c rest] eqn:Hc; [contradiction|].
  cbn [List.length Nat.eqb]. unfold bind at 1. rewrite Hgranted. cbn [negb].
  unfold bind at 1, setIsConverting at 1.
  unfold bind at 1, setStatus at 1.
  match goal with
  | |- context [bind (forOf (c :: rest) _) _ ?w2] =>
      destruct (forOf_convertCandidate env dir (DIRECTION_CONFIG direction)
                  (c :: rest) w2) as (w3 & lines & Hrun & _)
  end.
  unfold bind at 1. rewrite Hrun.
  unfold bind at 1, setStatus at 1.
  unfold bind at 1, setIsConverting at 1.
  eexists. split; [|reflexivity]. reflexivity.
Qed.

(** X19. A run that got the permission ends with both busy flags off,
    whatever happened to the files and to the rescan, and with one more log
    line per matched entry, up to the 20 the log holds. *)
Theorem handleConversion_run_ends_idle (env : Env)
    (localeCompare : string -> string -> Z) (direction : ConversionDirection)
    (w : World) (dir : FileSystemDirectoryHandle) (w1 : World) :
  directoryHandle w = Some dir ->
  conversionTargets (DIRECTION_CONFIG direction) (images w) <> [] ->
  ensurePermission dir readwrite w = (Returned true, w1) ->
  (List.length (logs w) <= 20)%nat ->
  let run := handleConversion env localeCompare direction w in
  fst run = Returned tt /\
  isConverting (snd run) = false /\
  isScanning (snd run) = false /\
  List.length (logs (snd run))
  = Nat.min 20 (List.length (logs w)
                + List.length (conversionTargets (DIRECTION_CONFIG direction)
                                 (images w))).
Proof.
  intros Hdir Htargets Hgranted Hlogs. cbv zeta.
  destruct (handleConversion_granted_run env localeCompare direction w dir w1
              Hdir Htargets Hgranted) as (w3 & Hconv & Hrun).
  destruct (handleConversion_completes env localeCompare direction w dir w1
              Hdir Hgranted) as (w' & lines & Hrun' & Hlen & _ & Hfold).
  split; [now rewrite Hrun'|]. split; [|split].
  - rewrite Hrun, keeps_isConverting_refreshDirectory. exact Hconv.
  - rewrite Hrun. apply (refreshDirectory_isScanning localeCompare dir None).
  - rewrite Hrun'. cbn [snd]. rewrite Hfold, <- Hlen.
    now apply appendLog_update_fold_length.
Qed.

Lemma handleConversion_run_ends_idle_witness :
  let w := Sample.world Sample.grantedDirectory Sample.inventory in
  let run := handleConversion Sample.env Sample.compareCodeUnits png_to_webp w in
  fst run = Returned tt /\
  isConverting (snd run) = false /\
  isScanning (snd run) = false /\
  List.length (logs (snd run))
  = Nat.min 20 (List.length (logs w)
                + List.length (conversionTargets (DIRECTION_CONFIG png_to_webp)
                                 (images w))).
Proof.
  intros w.
  apply (handleConversion_run_ends_idle Sample.env Sample.compareCodeUnits
           png_to_webp w Sample.grantedDirectory
           (snd (ensurePermission Sample.grantedDirectory readwrite w))).
  - reflexivity.
  - vm_compute. discriminate.
  - vm_compute. reflexivity.
  - vm_compute. lia.
Defined.

Lemma logBounded_keepsLogs {A} (m : M A) : keepsLogs m -> logBounded m.
Proof. intros H w Hw. now rewrite H. Qed.

Lemma logBounded_bind {A B} (m : M A) (k : A -> M B) :
  logBounded m -> (forall a, logBounded (k a)) -> logBounded (bind m k).
Proof.
  intros Hm Hk w Hw. unfold bind. specialize (Hm w Hw).
  destruct (m w) as [[a|e] w1]; cbn [snd] in *.
  - now apply Hk.
  - exact Hm.
Qed.

Lemma logBounded_tryCatch {A} (body : M A) (handler : Thrown -> M A) :
  logBounded body -> (forall e, logBounded (handler e)) ->
  logBounded (tryCatch body handler).
Proof.
  intros Hb Hh w Hw. unfold tryCatch. specialize (Hb w Hw).
  destruct (body w) as [[a|e] w1]; cbn [snd] in *.
  - exact Hb.
  - now apply Hh.
Qed.

Lemma logBounded_forOf {A} (xs : list A) (body : A -> M unit) :
  (forall x, logBounded (body x)) -> logBounded (forOf xs body).
Proof.
  intros H. induction xs as [|x xs IH].
  - intros w Hw. exact Hw.
  - cbn [forOf]. apply logBounded_bind; [apply H|intros _; exact IH].
Qed.

Lemma logBounded_appendLog entry : logBounded (appendLog entry).
Proof.
  intros w _. cbn [appendLog snd logs]. rewrite appendLog_update_length. lia.
Qed.

Lemma logBounded_convertCandidate env dir config candidate :
  logBounded (convertCandidate env dir config candidate).
Proof.
  unfold convertCandidate, convertCandidate_try.
  apply logBounded_tryCatch; [|intros e; apply logBounded_appendLog].
  apply logBounded_bind; [apply logBounded_keepsLogs; auto with keeps|intros _].
  apply logBounded_bind; [apply logBounded_keepsLogs; auto with keeps|intros file].
  apply logBounded_bind;
    [apply logBounded_keepsLogs, keepsLogs_convertWithCanvas|intros blob].
  cbv zeta.
  repeat (apply logBounded_bind;
          [apply logBounded_keepsLogs; auto with keeps|intros ?]).
  apply logBounded_appendLog.
Qed.

Lemma logBounded_handleConversion env localeCompare direction :
  logBounded (handleConversion env localeCompare direction).
Proof.
  intros w. unfold handleConversion.
  destruct (directoryHandle w) as [dir|]; [|auto].
  cbv zeta.
  match goal with
  | |- _ -> (List.length (logs (snd (?m w))) <= 20)%nat =>
      assert (H : logBounded m); [|exact (H w)]
  end.
  destruct (_ =? 0)%nat; [apply logBounded_keepsLogs; auto with keeps|].
  apply logBounded_bind; [apply logBounded_keepsLogs; auto with keeps|intros g].
  destruct (negb g); [apply logBounded_keepsLogs; auto with keeps|].
  apply logBounded_bind; [apply logBounded_keepsLogs; auto with keeps|intros _].
  apply logBounded_bind; [apply logBounded_keepsLogs; auto with keeps|intros _].
  apply logBounded_bind;
    [apply logBounded_forOf; intros c; apply logBounded_convertCandidate
    |intros _].
  apply logBounded_bind; [apply logBounded_keepsLogs; auto with keeps|intros _].
  apply logBounded_bind; [apply logBounded_keepsLogs; auto with keeps|intros _].
  apply logBounded_keepsLogs, keepsLogs_refreshDirectory.
Qed.

(** ** handleDirectoryPick *)

Lemma handleDirectoryPick_picked_run localeCompare window w picker dir :
  canUseFsApi window = true ->
  showDirectoryPicker window = Some picker ->
  picker (trace w) = Picked dir ->
  handleDirectoryPick localeCompare window w
  = (Returned tt,
     snd (refreshDirectory localeCompare (Some dir) None
            (snd ((setDirectoryHandle dir ;;; setLogs []) w)))).
Proof.
  intros Hcan Hpicker Hpicked. unfold handleDirectoryPick.
  rewrite Hcan, Hpicker, Hpicked. cbn [negb].
  unfold tryCatch, bind, setDirectoryHandle, setLogs. cbn [snd].
  match goal with
  | |- context [refreshDirectory localeCompare (Some dir) ?c ?w0] =>
      pose proof (refreshDirectory_returns localeCompare (Some dir) c w0) as Hr;
      change (refreshDirectory localeCompare (Some dir) c w0)
        with (refreshDirectory localeCompare (Some dir) None w0) in *;
      destruct (refreshDirectory localeCompare (Some dir) None w0) as [r w']
  end.
  cbn [fst] in Hr. subst r. reflexivity.
Qed.

(** X20. Picking a directory never throws.  Without the picker nothing
    happens; a cancelled picker (an [AbortError]) changes nothing either;
    any other error of the picker only sets the status, to the message of
    the error. *)
Theorem handleDirectoryPick_failures (localeCompare : string -> string -> Z)
    (window : Window) (w : World) :
  let run := handleDirectoryPick localeCompare window w in
  fst run = Returned tt /\
  (canUseFsApi window = false \/ showDirectoryPicker window = None ->
   snd run = w) /\
  (forall picker error isAbortError,
      canUseFsApi window = true ->
      showDirectoryPicker window = Some picker ->
      picker (trace w) = PickerThrew error isAbortError ->
      snd run
      = if isAbortError then w
        else snd (setStatus
                    (messageOf error "ディレクトリの選択に失敗しました。") w)).
Proof.
  cbv zeta. split; [|split].
  - destruct (canUseFsApi window) eqn:Hcan;
      [|unfold handleDirectoryPick; now rewrite Hcan].
    destruct (showDirectoryPicker window) as [picker|] eqn:Hpicker;
      [|unfold handleDirectoryPick; now rewrite Hcan, Hpicker].
    destruct (picker (trace w)) as [dir|error isAbortError] eqn:Hpick.
    + now rewrite (handleDirectoryPick_picked_run localeCompare window w
                     picker dir Hcan Hpicker Hpick).
    + unfold handleDirectoryPick. rewrite Hcan, Hpicker, Hpick.
      now destruct isAbortError.
  - unfold handleDirectoryPick. intros [H|H]; rewrite H; [reflexivity|].
    now destruct (negb (canUseFsApi window)).
  - intros picker error isAbortError Hcan Hpicker Hpick.
    unfold handleDirectoryPick. rewrite Hcan, Hpicker, Hpick.
    now destruct isAbortError.
Qed.

Lemma handleDirectoryPick_failures_witness :
  snd (handleDirectoryPick Sample.compareCodeUnits Scenario.cancellingWindow
         Scenario.usedWorld) = Scenario.usedWorld /\
  snd (handleDirectoryPick Sample.compareCodeUnits Scenario.failingWindow
         Scenario.usedWorld)
  = snd (setStatus "Must be handling a user gesture." Scenario.usedWorld) /\
  snd (handleDirectoryPick Sample.compareCodeUnits (mkWindow false None)
         Scenario.usedWorld) = Scenario.usedWorld.
Proof.
  split; [|split].
  - apply (proj2 (proj2 (handleDirectoryPick_failures Sample.compareCodeUnits
                           Scenario.cancellingWindow Scenario.usedWorld))
             (fun _ => PickerThrew (ErrorObject "The user aborted a request.") true)
             (ErrorObject "The user aborted a request.") true);
      reflexivity.
  - apply (proj2 (proj2 (handleDirectoryPick_failures Sample.compareCodeUnits
                           Scenario.failingWindow Scenario.usedWorld))
             (fun _ => PickerThrew (ErrorObject "Must be handling a user gesture.")
                         false)
             (ErrorObject "Must be handling a user gesture.") false);
      reflexivity.
  - apply (proj1 (proj2 (handleDirectoryPick_failures Sample.compareCodeUnits
                           (mkWindow false None) Scenario.usedWorld))).
    left. reflexivity.
Defined.

(** X21. A picked directory becomes the selected one, the log of the
    previous directory is emptied, and the directory is scanned at once;
    the log is empty whatever the scan does. *)
Theorem handleDirectoryPick_picked (localeCompare : string -> string -> Z)
    (window : Window) (w : World)
    (picker : History -> PickerOutcome) (dir : FileSystemDirectoryHandle) :
  canUseFsApi window = true ->
  showDirectoryPicker window = Some picker ->
  picker (trace w) = Picked dir ->
  let run := handleDirectoryPick localeCompare window w in
  fst run = Returned tt /\
  directoryHandle (snd run) = Some dir /\
  logs (snd run) = [] /\
  isScanning (snd run) = false /\
  isConverting (snd run) = isConverting w /\
  snd run
  = snd (refreshDirectory localeCompare (Some dir) None
           (snd ((setDirectoryHandle dir ;;; setLogs []) w))).
Proof.
  intros Hcan Hpicker Hpick. cbv zeta.
  rewrite (handleDirectoryPick_picked_run localeCompare window w picker dir
             Hcan Hpicker Hpick).
  cbn [fst snd]. split; [reflexivity|].
  rewrite keeps_directoryHandle_refreshDirectory, keepsLogs_refreshDirectory,
    keeps_isConverting_refreshDirectory, refreshDirectory_isScanning.
  repeat split.
Qed.

Lemma handleDirectoryPick_picked_witness :
  let w := Scenario.usedWorld in
  let run := handleDirectoryPick Sample.compareCodeUnits Scenario.pickingWindow w in
  fst run = Returned tt /\
  directoryHandle (snd run) = Some Sample.grantedDirectory /\
  logs (snd run) = [] /\
  isScanning (snd run) = false /\
  isConverting (snd run) = isConverting w /\
  snd run
  = snd (refreshDirectory Sample.compareCodeUnits (Some Sample.grantedDirectory)
           None
           (snd ((setDirectoryHandle Sample.grantedDirectory ;;; setLogs []) w))).
Proof.
  intros w.
  apply (handleDirectoryPick_picked Sample.compareCodeUnits
           Scenario.pickingWindow w (fun _ => Picked Sample.grantedDirectory)
           Sample.grantedDirectory); reflexivity.
Defined.

(** X22. No handler lets the log grow beyond 20 entries: a log within the
    bound is within the bound after a conversion run, a scan or a pick,
    however they end. *)
Theorem handlers_keep_log_bounded (env : Env)
    (localeCompare : string -> string -> Z) (w : World) :
  (List.length (logs w) <= 20)%nat ->
  (forall direction,
      (List.length (logs (snd (handleConversion env localeCompare direction w)))
       <= 20)%nat) /\
  (forall incoming closureHandle,
      (List.length
         (logs (snd (refreshDirectory localeCompare incoming closureHandle w)))
       <= 20)%nat) /\
  (forall window,
      (List.length (logs (snd (handleDirectoryPick localeCompare window w)))
       <= 20)%nat).
Proof.
  intros Hw. split; [|split].
  - intros direction. now apply logBounded_handleConversion.
  - intros incoming closureHandle. now rewrite keepsLogs_refreshDirectory.
  - intros window.
    destruct (canUseFsApi window) eqn:Hcan;
      [|unfold handleDirectoryPick; now rewrite Hcan].
    destruct (showDirectoryPicker window) as [picker|] eqn:Hpicker;
      [|unfold handleDirectoryPick; now rewrite Hcan, Hpicker].
    destruct (picker (trace w)) as [dir|error isAbortError] eqn:Hpick.
    + rewrite (handleDirectoryPick_picked_run localeCompare window w picker dir
                 Hcan Hpicker Hpick).
      cbn [snd]. rewrite keepsLogs_refreshDirectory. cbn. lia.
    + unfold handleDirectoryPick. rewrite Hcan, Hpicker, Hpick.
      now destruct isAbortError.
Qed.

Lemma handlers_keep_log_bounded_witness :
  let w := Scenario.usedWorld in
  (forall direction,
      (List.length
         (logs (snd (handleConversion Sample.env Sample.compareCodeUnits
                       direction w))) <= 20)%nat) /\
  (forall incoming closureHandle,
      (List.length
         (logs (snd (refreshDirectory Sample.compareCodeUnits incoming
                       closureHandle w))) <= 20)%nat) /\
  (forall window,
      (List.length
         (logs (snd (handleDirectoryPick Sample.compareCodeUnits window w)))
       <= 20)%nat).
Proof.
  intros w.
  apply (handlers_keep_log_bounded Sample.env Sample.compareCodeUnits w).
  cbn. lia.
Defined.

(** ** The order of the batch *)

Lemma convertCandidate_reads_once env dir config candidate w :
  exists rest,
    trace (snd (convertCandidate env dir config candidate w))
    = (trace w ++ EvGetFile (name candidate) :: rest)%list /\
    filter isGetFile rest = [].
Proof.
  unfold convertCandidate, tryCatch, convertCandidate_try.
  unfold bind at 1, setStatus at 1. unfold bind at 1, perform at 1.
  cbn [trace].
  destruct (getFile (handle candidate) (trace w)) as [file|e].
  - match goal with
    | |- context [bind (convertWithCanvas env file (mime config)) ?k ?w0] =>
        assert (HK : emitsOnly (fun e => negb (isGetFile e))
                       (bind (convertWithCanvas env file (mime config)) k));
        [|destruct (HK w0) as (calls & Htrace & Hcalls);
          destruct (bind (convertWithCanvas env file (mime config)) k w0)
            as [[[]|e] w1]]
    end.
    + apply emitsOnly_bind.
      { apply (emitsOnly_weaken isCanvasWork); [|apply emitsOnly_convertWithCanvas].
        intros e He. destruct e; try discriminate He; reflexivity. }
      intros blob. cbv zeta. calls.
    + exists calls. cbn [snd record trace] in *. rewrite Htrace, <- app_assoc.
      split; [reflexivity|].
      clear - Hcalls. induction calls as [|e calls IH]; [reflexivity|].
      cbn [forallb filter] in *. apply andb_true_iff in Hcalls as [He Hrest].
      apply negb_true_iff in He. rewrite He. now apply IH.
    + exists calls. cbn [appendLog snd record trace] in *.
      rewrite Htrace, <- app_assoc.
      split; [reflexivity|].
      clear - Hcalls. induction calls as [|e' calls IH]; [reflexivity|].
      cbn [forallb filter] in *. apply andb_true_iff in Hcalls as [He Hrest].
      apply negb_true_iff in He. rewrite He. now apply IH.
  - exists []. split; reflexivity.
Qed.

Lemma forOf_convertCandidate_reads env dir config targets :
  forall w,
  exists calls,
    trace (snd (forOf targets (convertCandidate env dir config) w))
    = (trace w ++ calls)%list /\
    filter isGetFile calls = map (fun c => EvGetFile (name c)) targets.
Proof.
  induction targets as [|candidate rest IH]; intros w.
  - exists []. cbn. now rewrite app_nil_r.
  - destruct (convertCandidate_outcome env dir config candidate w)
      as (w1 & Hrun & _).
    destruct (convertCandidate_reads_once env dir config candidate w)
      as (calls1 & Htrace1 & Hcalls1).
    rewrite Hrun in Htrace1. cbn [snd] in Htrace1.
    destruct (IH w1) as (calls2 & Htrace2 & Hcalls2).
    exists (EvGetFile (name candidate) :: calls1 ++ calls2)%list.
    cbn [forOf]. unfold bind. rewrite Hrun, Htrace2, Htrace1, <- app_assoc.
    split; [reflexivity|].
    cbn [filter isGetFile map]. now rewrite filter_app, Hcalls1, Hcalls2.
Qed.

(** X23. The batch loop reads every matched entry once, and in the order
    the entries have in the list, whether the conversions succeed or
    fail. *)
Theorem batch_reads_in_order (env : Env) (dir : FileSystemDirectoryHandle)
    (config : DirectionConfig) (targets : list ImageEntry) (w : World) :
  filter isGetFile
    (emitted (forOf targets (convertCandidate env dir config)) w)
  = map (fun candidate => EvGetFile (name candidate)) targets.
Proof.
  destruct (forOf_convertCandidate_reads env dir config targets w)
    as (calls & Htrace & Hcalls).
  unfold emitted. now rewrite Htrace, skipn_length_app.
Qed.

(** ** One turn of the batch, step by step *)

(** The [try] block up to the end of the conversion. *)
Lemma convertCandidate_try_converted env dir config candidate w file :
  getFile (handle candidate) (trace w) = Returned file ->
  let w0 := record (EvGetFile (name candidate))
              (snd (setStatus ("変換中: " ++ name candidate) w)) in
  convertCandidate_try env dir config candidate w
  = match convertWithCanvas env file (mime config) w0 with
    | (Threw error, w2) => (Threw error, w2)
    | (Returned blob, w2) =>
        let newName := replaceExtension (name candidate) (targetExt config) in
        (newHandle <- perform (EvGetFileHandle newName)
                        (fun h => getFileHandle dir h newName) ;;
         writable <- perform (EvCreateWritable newName)
                       (createWritable newHandle) ;;
         perform (EvWrite newName blob) (fun h => write writable h blob) ;;;
         perform (EvClose newName) (close writable) ;;;
         appendLog (successLog candidate newName blob)) w2
    end.
Proof.
  intros Hfile. cbv zeta. unfold convertCandidate_try.
  unfold bind at 1, setStatus at 1. unfold bind at 1, perform at 1.
  cbn [trace snd]. rewrite Hfile. unfold bind at 1.
  destruct (convertWithCanvas env file (mime config) _) as [[blob|e] w2];
    reflexivity.
Qed.

(** X24. When the conversion of a file fails, in decoding, drawing or
    encoding, nothing is created or written in the directory for it: the
    turn ends with the failure line in the log and no call on a target
    file. *)
Theorem convertCandidate_failed_conversion_writes_nothing (env : Env)
    (dir : FileSystemDirectoryHandle) (config : DirectionConfig)
    (candidate : ImageEntry) (w : World) (file : File) (error : Thrown)
    (w2 : World) :
  getFile (handle candidate) (trace w) = Returned file ->
  convertWithCanvas env file (mime config)
    (record (EvGetFile (name candidate))
       (snd (setStatus ("変換中: " ++ name candidate) w)))
  = (Threw error, w2) ->
  let run := convertCandidate env dir config candidate w in
  fst run = Returned tt /\
  logs (snd run) = firstn 20 (failureLog candidate error :: logs w) /\
  count isWrittenTo (emitted (convertCandidate env dir config candidate) w)
  = 0%nat.
Proof.
  intros Hfile Hconvert. cbv zeta.
  pose proof (convertCandidate_try_converted env dir config candidate w file
                Hfile) as Htry.
  cbv zeta in Htry. rewrite Hconvert in Htry.
  pose proof (keepsLogs_convertWithCanvas env file (mime config)
                (record (EvGetFile (name candidate))
                   (snd (setStatus ("変換中: " ++ name candidate) w)))) as Hlogs.
  pose proof (emitsOnly_convertWithCanvas env file (mime config)
                (record (EvGetFile (name candidate))
                   (snd (setStatus ("変換中: " ++ name candidate) w))))
    as (calls & Htrace & Hcalls).
  rewrite Hconvert in Hlogs, Htrace. cbn [snd record setStatus logs trace] in *.
  assert (Hrun : convertCandidate env dir config candidate w
                 = appendLog (failureLog candidate error) w2).
  { unfold convertCandidate, tryCatch. now rewrite Htry. }
  unfold emitted. rewrite Hrun. cbn [appendLog fst snd logs trace].
  split; [reflexivity|]. split; [now rewrite Hlogs|].
  rewrite Htrace, <- app_assoc, skipn_length_app.
  apply (count_other_kind (fun e => isGetFile e || isCanvasWork e)%bool).
  - intros e He. destruct e; try discriminate He; reflexivity.
  - cbn [app forallb isGetFile orb andb]. rewrite forallb_forall in *.
    intros e He. rewrite (Hcalls e He). apply orb_true_r.
Qed.

Lemma convertCandidate_failed_conversion_writes_nothing_witness :
  let w := Sample.world Sample.grantedDirectory Sample.inventory in
  let candidate := Sample.entry "b.png" "image/png" in
  let run := convertCandidate Sample.env Sample.grantedDirectory
               (DIRECTION_CONFIG png_to_webp) candidate w in
  fst run = Returned tt /\
  logs (snd run)
  = firstn 20
      (failureLog candidate
         (ErrorObject "The source image could not be decoded.") :: logs w) /\
  count isWrittenTo
    (emitted (convertCandidate Sample.env Sample.grantedDirectory
                (DIRECTION_CONFIG png_to_webp) candidate) w) = 0%nat.
Proof.
  intros w candidate.
  apply (convertCandidate_failed_conversion_writes_nothing Sample.env
           Sample.grantedDirectory (DIRECTION_CONFIG png_to_webp) candidate w
           (mkFile "b.png" "image/png" 1000 0)
           (ErrorObject "The source image could not be decoded.")
           (snd (convertWithCanvas Sample.env
                   (mkFile "b.png" "image/png" 1000 0) "image/webp"
                   (record (EvGetFile "b.png")
                      (snd (setStatus ("変換中: " ++ "b.png") w)))))).
  - reflexivity.
  - vm_compute. reflexivity.
Defined.

(** X25. When [write] rejects, the target file has been created and its
    stream opened, and the stream is never closed: the turn ends right
    after the [write] call, with the failure line in the log. *)
Theorem convertCandidate_write_failure_leaves_stream_open (env : Env)
    (dir : FileSystemDirectoryHandle) (config : DirectionConfig)
    (candidate : ImageEntry) (w : World) (file : File) (blob : Blob)
    (w2 : World) (newHandle : FileSystemFileHandle)
    (writable : FileSystemWritableFileStream) (error : Thrown) :
  let newName := replaceExtension (name candidate) (targetExt config) in
  getFile (handle candidate) (trace w) = Returned file ->
  convertWithCanvas env file (mime config)
    (record (EvGetFile (name candidate))
       (snd (setStatus ("変換中: " ++ name candidate) w)))
  = (Returned blob, w2) ->
  getFileHandle dir (trace w2) newName = Returned newHandle ->
  createWritable newHandle (trace w2 ++ [EvGetFileHandle newName])%list
  = Returned writable ->
  write writable
    (trace w2 ++ [EvGetFileHandle newName; EvCreateWritable newName])%list blob
  = Threw error ->
  let run := convertCandidate env dir config candidate w in
  fst run = Returned tt /\
  logs (snd run) = firstn 20 (failureLog candidate error :: logs w) /\
  trace (snd run)
  = (trace w2 ++ [EvGetFileHandle newName; EvCreateWritable newName;
                  EvWrite newName blob])%list.
Proof.
  intros newName Hfile Hconvert Hhandle Hwritable Hwrite. cbv zeta.
  pose proof (convertCandidate_try_converted env dir config candidate w file
                Hfile) as Htry.
  cbv zeta in Htry. rewrite Hconvert in Htry.
  pose proof (keepsLogs_convertWithCanvas env file (mime config)
                (record (EvGetFile (name candidate))
                   (snd (setStatus ("変換中: " ++ name candidate) w)))) as Hlogs.
  rewrite Hconvert in Hlogs. cbn [snd record setStatus logs] in Hlogs.
  fold newName in Htry.
  assert (Hrun : convertCandidate env dir config candidate w
                 = appendLog (failureLog candidate error)
                     (record (EvWrite newName blob)
                        (record (EvCreateWritable newName)
                           (record (EvGetFileHandle newName) w2)))).
  { unfold convertCandidate, tryCatch. rewrite Htry.
    unfold bind, perform. rewrite Hhandle. cbn [record trace].
    rewrite Hwritable. cbn [record trace]. rewrite <- app_assoc. cbn [app].
    now rewrite Hwrite. }
  rewrite Hrun. cbn [appendLog fst snd logs trace record].
  split; [reflexivity|]. split; [now rewrite Hlogs|].
  now rewrite <- !app_assoc.
Qed.

Lemma convertCandidate_write_failure_leaves_stream_open_witness :
  let w := Sample.world Scenario.fullDirectory Sample.inventory in
  let candidate := Sample.entry "a.png" "image/png" in
  let w2 := snd (convertWithCanvas Sample.env
                   (mkFile "a.png" "image/png" 1000 0) "image/webp"
                   (record (EvGetFile "a.png")
                      (snd (setStatus ("変換中: " ++ "a.png") w)))) in
  let run := convertCandidate Sample.env Scenario.fullDirectory
               (DIRECTION_CONFIG png_to_webp) candidate w in
  fst run = Returned tt /\
  logs (snd run)
  = firstn 20
      (failureLog candidate (ErrorObject "The quota has been exceeded.")
       :: logs w) /\
  trace (snd run)
  = (trace w2 ++ [EvGetFileHandle "a.webp"; EvCreateWritable "a.webp";
                  EvWrite "a.webp" (mkBlob 2048 "image/webp")])%list.
Proof.
  intros w candidate w2.
  apply (convertCandidate_write_failure_leaves_stream_open Sample.env
           Scenario.fullDirectory (DIRECTION_CONFIG png_to_webp) candidate w
           (mkFile "a.png" "image/png" 1000 0) (mkBlob 2048 "image/webp") w2
           (mkFileHandle "a.webp"
              (fun _ => Returned (mkFile "a.webp" "" 0 0))
              (fun _ => Returned Scenario.rejectingWritable))
           Scenario.rejectingWritable
           (ErrorObject "The quota has been exceeded.")).
  - reflexivity.
  - vm_compute. reflexivity.
  - reflexivity.
  - reflexivity.
  - reflexivity.
Defined.
